(** * PII redaction agent: a shallow embedding of [pii_redaction_agent.py]

    The development models the pure core of [PIIRedactionAgent]: the parsing
    half of [detect_pii_with_ai], [apply_regex_patterns],
    [create_redacted_text], [generate_redaction_report] and the deduplication
    loop of [process_document].  HTTP calls, file output and [print] are left
    out; the chat completion's reply text is an input of the model.

    Python values are modelled as follows.
    - [str] is a list of characters ([ascii], code points 0..255).
    - [int] is [Z]; slice bounds follow Python's clamping rules.
    - [float] is an IEEE-754 binary64 value ([spec_float]).
    - a raised exception is the [Raised] case of [outcome]. *)

From Stdlib Require Import List String Ascii ZArith NArith Bool Lia Arith.
From Stdlib Require Import Permutation Sorted DecimalString.
From Stdlib Require Import Floats.SpecFloat QArith Qabs.
Import ListNotations.

Set Warnings "-register-all".
Local Open Scope Z_scope.

(* ================================================================== *)
(** ** Python strings *)
(* ================================================================== *)

Definition str := list ascii.

(** A string literal of the source. *)
Definition lit (s : string) : str := list_ascii_of_string s.

Definition str_eqb (a b : str) : bool :=
  String.eqb (string_of_list_ascii a) (string_of_list_ascii b).

(** [len(s)] as a Python int. *)
Definition len (s : str) : Z := Z.of_nat (List.length s).

(** Python resolves a slice bound [i] on a sequence of length [n]: a negative
    bound counts from the end, and the result is clamped to [0..n]. *)
Definition slice_index (n i : Z) : nat :=
  Z.to_nat (Z.max 0 (Z.min n (if i <? 0 then i + n else i))).

(** [s[:stop]] *)
Definition slice_to (s : str) (stop : Z) : str :=
  firstn (slice_index (len s) stop) s.

(** [s[start:]] *)
Definition slice_from (s : str) (start : Z) : str :=
  skipn (slice_index (len s) start) s.

(** [s[start:stop]] *)
Definition slice (s : str) (start stop : Z) : str :=
  skipn (slice_index (len s) start) (firstn (slice_index (len s) stop) s).

(** [str(n)] for an int, as an f-string formats it. *)
Definition str_of_int (n : Z) : str :=
  lit (NilZero.string_of_int (Z.to_int n)).

(** [s.startswith(p)] *)
Fixpoint startswith (p s : str) : bool :=
  match p, s with
  | [], _ => true
  | _ :: _, [] => false
  | a :: p', b :: s' => Ascii.eqb a b && startswith p' s'
  end.

(** [sep in s] for a non-empty [sep]. *)
Fixpoint contains (sep s : str) : bool :=
  startswith sep s ||
  match s with
  | [] => false
  | _ :: s' => contains sep s'
  end.

(** [s.split(sep)] for a non-empty [sep], scanning left to right.  [skip]
    counts the characters of a separator occurrence that remain to be passed
    over, [cur] is the part read so far, in reverse. *)
Fixpoint split_go (sep : str) (skip : nat) (cur : str) (s : str) : list str :=
  match s with
  | [] => [rev cur]
  | c :: s' =>
      match skip with
      | S k => split_go sep k cur s'
      | O =>
          if startswith sep s
          then rev cur :: split_go sep (Nat.pred (List.length sep)) [] s'
          else split_go sep O (c :: cur) s'
      end
  end.

Definition split (s sep : str) : list str := split_go sep O [] s.

(* ================================================================== *)
(** ** Exceptions *)
(* ================================================================== *)

Inductive exn : Set :=
| IndexError
| KeyError
| TypeError
| ValueError
| JSONDecodeError.

Inductive outcome (A : Type) : Type :=
| Returned (a : A)
| Raised (e : exn).

Arguments Returned {A} a.
Arguments Raised {A} e.

Definition bind {A B : Type} (m : outcome A) (f : A -> outcome B) : outcome B :=
  match m with
  | Returned a => f a
  | Raised e => Raised e
  end.

Notation "x <- m ;; k" := (bind m (fun x => k))
  (at level 61, m at next level, right associativity).

(** [l[i]] on a list, for a non-negative literal index. *)
Definition getindex {A : Type} (l : list A) (i : nat) : outcome A :=
  match nth_error l i with
  | Some a => Returned a
  | None => Raised IndexError
  end.

(* ================================================================== *)
(** ** Insertion-ordered dictionaries with string keys *)
(* ================================================================== *)

Definition dict (V : Type) := list (str * V).

(** [d.get(key)] *)
Fixpoint dict_get {V : Type} (d : dict V) (key : str) : option V :=
  match d with
  | [] => None
  | (k, v) :: d' => if str_eqb k key then Some v else dict_get d' key
  end.

(** [d[key] = v]: an existing key keeps its place, a new key goes last. *)
Fixpoint dict_set {V : Type} (d : dict V) (key : str) (v : V) : dict V :=
  match d with
  | [] => [(key, v)]
  | (k, w) :: d' =>
      if str_eqb k key then (k, v) :: d' else (k, w) :: dict_set d' key v
  end.

(* ================================================================== *)
(** ** The data model *)
(* ================================================================== *)

(** [class PIIType(Enum)] *)
Inductive PIIType : Set :=
| SSN
| EMAIL
| PHONE
| ADDRESS
| CREDIT_CARD
| NAME
| DATE_OF_BIRTH
| DRIVER_LICENSE
| PASSPORT
| BANK_ACCOUNT
| IP_ADDRESS
| URL.

(** The members in definition order. *)
Definition PIIType_members : list PIIType :=
  [SSN; EMAIL; PHONE; ADDRESS; CREDIT_CARD; NAME; DATE_OF_BIRTH;
   DRIVER_LICENSE; PASSPORT; BANK_ACCOUNT; IP_ADDRESS; URL].

(** [member.name] *)
Definition PIIType_name (t : PIIType) : str :=
  lit match t with
      | SSN => "SSN"
      | EMAIL => "EMAIL"
      | PHONE => "PHONE"
      | ADDRESS => "ADDRESS"
      | CREDIT_CARD => "CREDIT_CARD"
      | NAME => "NAME"
      | DATE_OF_BIRTH => "DATE_OF_BIRTH"
      | DRIVER_LICENSE => "DRIVER_LICENSE"
      | PASSPORT => "PASSPORT"
      | BANK_ACCOUNT => "BANK_ACCOUNT"
      | IP_ADDRESS => "IP_ADDRESS"
      | URL => "URL"
      end.

(** [member.value] *)
Definition PIIType_value (t : PIIType) : str :=
  lit match t with
      | SSN => "Social Security Number"
      | EMAIL => "Email Address"
      | PHONE => "Phone Number"
      | ADDRESS => "Physical Address"
      | CREDIT_CARD => "Credit Card Number"
      | NAME => "Person Name"
      | DATE_OF_BIRTH => "Date of Birth"
      | DRIVER_LICENSE => "Driver License"
      | PASSPORT => "Passport Number"
      | BANK_ACCOUNT => "Bank Account Number"
      | IP_ADDRESS => "IP Address"
      | URL => "URL"
      end.

Definition float := spec_float.

(** What [json.loads] returns: [None], [bool], [int], [float], [str], [list]
    or [dict]. *)
Inductive json : Type :=
| JNull
| JBool (b : bool)
| JInt (n : Z)
| JFloat (x : float)
| JStr (s : str)
| JArr (l : list json)
| JObj (d : list (str * json)).

(** [@dataclass class PIIEntity].  Python does not enforce the annotations,
    so the record is parametric in the types of the fields an extractor
    fills: [PIIEntity] is the record as annotated, [DynEntity] is what the
    AI extractor builds from the items of a reply, whose fields are whatever
    JSON values the items carry. *)
Record PIIEntityOf (S F I : Type) : Type := mkPIIEntity {
  text : S;
  pii_type : PIIType;
  confidence : F;
  start_position : I;
  end_position : I;
  page_number : option Z;
  bounding_box : option json
}.

Arguments mkPIIEntity {S F I}.
Arguments text {S F I}.
Arguments pii_type {S F I}.
Arguments confidence {S F I}.
Arguments start_position {S F I}.
Arguments end_position {S F I}.
Arguments page_number {S F I}.
Arguments bounding_box {S F I}.

Definition PIIEntity := PIIEntityOf str float Z.
Definition DynEntity := PIIEntityOf json json json.

(* ================================================================== *)
(** ** Regular expressions, as [re] matches them *)
(* ================================================================== *)

(** The five patterns of [apply_regex_patterns] use character sets, class
    escapes, [\b], concatenation and greedy repetition ([?], [+], [{m}],
    [{m,}], [{m,n}]); the matcher below is the backtracking search of [re]
    for these constructs.  Class membership is the one of [re] on [str]
    patterns, restricted to code points below 256.  No pattern contains a
    cased literal and every letter set lists both cases, so [re.IGNORECASE]
    changes nothing on these code points. *)

Definition code (c : ascii) : N := N_of_ascii c.

Definition in_range (lo hi c : ascii) : bool :=
  ((code lo <=? code c) && (code c <=? code hi))%N.

Definition one_of (set : string) (c : ascii) : bool :=
  existsb (Ascii.eqb c) (lit set).

(** [\d] and [[0-9]] *)
Definition is_digit (c : ascii) : bool := in_range "0" "9" c.

(** [[A-Za-z]] *)
Definition is_letter (c : ascii) : bool :=
  in_range "A" "Z" c || in_range "a" "z" c.

(** [\s]: the characters for which [str.isspace] holds. *)
Definition is_space (c : ascii) : bool :=
  let n := code c in
  ((9 <=? n) && (n <=? 13) || (28 <=? n) && (n <=? 32)
   || (n =? 133) || (n =? 160))%N.

(** [\w]: alphanumeric characters ([str.isalnum]) and the underscore. *)
Definition is_word (c : ascii) : bool :=
  let n := code c in
  is_digit c || is_letter c || Ascii.eqb c "_"
  || ((n =? 170) || (n =? 178) || (n =? 179) || (n =? 181) || (n =? 185)
      || (n =? 186) || (n =? 188) || (n =? 189) || (n =? 190)
      || (192 <=? n) && (n <=? 214) || (216 <=? n) && (n <=? 246)
      || (248 <=? n) && (n <=? 255))%N.

Inductive regex : Type :=
| Empty
| Boundary
| Class (p : ascii -> bool)
| Seq (r1 r2 : regex)
| Repeat (lo : nat) (hi : option nat) (r : regex).

(** [r?], [r+], [r{n}] *)
Definition Opt (r : regex) : regex := Repeat 0 (Some 1%nat) r.
Definition Plus (r : regex) : regex := Repeat 1 None r.
Definition Times (n : nat) (r : regex) : regex := Repeat n (Some n) r.

Definition Chr (c : ascii) : regex := Class (Ascii.eqb c).

Definition Cat (rs : list regex) : regex := fold_right Seq Empty rs.

(** Greedy repetition of [body]: at least [lo] and at most [n] more
    iterations, trying one more iteration before trying to go on with [k]. *)
Fixpoint repeat_greedy (body : nat -> (nat -> option nat) -> option nat)
    (lo n : nat) (i : nat) (k : nat -> option nat) : option nat :=
  match n with
  | O => if (lo =? 0)%nat then k i else None
  | S n' =>
      match body i (fun j => repeat_greedy body (Nat.pred lo) n' j k) with
      | Some e => Some e
      | None => if (lo =? 0)%nat then k i else None
      end
  end.

Section Matcher.

Variable s : str.

Definition word_at (i : nat) : bool :=
  match nth_error s i with
  | Some c => is_word c
  | None => false
  end.

(** [\b] holds at [i] when exactly one of [s[i-1]] and [s[i]] is a word
    character, a position outside the string counting as a non-word. *)
Definition at_boundary (i : nat) : bool :=
  xorb (match i with O => false | S p => word_at p end) (word_at i).

(** [mtch r i k]: match [r] at position [i], then continue with [k] at the
    position reached; the result is the end position of the whole match.
    An unbounded repetition is cut at [lo + len(s)] iterations, which no
    iteration that consumes a character can reach. *)
Fixpoint mtch (r : regex) (i : nat) (k : nat -> option nat) : option nat :=
  match r with
  | Empty => k i
  | Boundary => if at_boundary i then k i else None
  | Class p =>
      match nth_error s i with
      | Some c => if p c then k (S i) else None
      | None => None
      end
  | Seq r1 r2 => mtch r1 i (fun j => mtch r2 j k)
  | Repeat lo hi r1 =>
      repeat_greedy (mtch r1) lo
        (match hi with Some h => h | None => (lo + List.length s)%nat end)
        i k
  end.

(** [pattern.match(s, i)]: the end of the match that starts at [i]. *)
Definition match_at (r : regex) (i : nat) : option nat := mtch r i Some.

(** [pattern.search(s, i)]: the leftmost start position from [i] on where
    [r] matches, with the end of that match; [fuel] counts the start
    positions left to try. *)
Fixpoint search (r : regex) (fuel i : nat) : option (nat * nat) :=
  match fuel with
  | O => None
  | S f =>
      match match_at r i with
      | Some e => Some (i, e)
      | None => search r f (S i)
      end
  end.

(** The spans of [re.finditer]: successive non-overlapping matches, left to
    right.  After an empty match the scan resumes one character further
    (none of the source's patterns matches the empty string). *)
Fixpoint finditer_from (r : regex) (fuel i : nat) : list (nat * nat) :=
  match fuel with
  | O => []
  | S f =>
      match search r (S (List.length s) - i) i with
      | None => []
      | Some (st, e) =>
          (st, e) :: finditer_from r f (if (e =? st)%nat then S e else e)
      end
  end.

Definition finditer (r : regex) : list (nat * nat) :=
  finditer_from r (S (List.length s)) O.

End Matcher.

(* ================================================================== *)
(** ** [apply_regex_patterns] *)
(* ================================================================== *)

(** [[-.\s]] *)
Definition sep_class : regex := Class (fun c => one_of "-." c || is_space c).

(** [r'\b\d{3}-?\d{2}-?\d{4}\b'] *)
Definition ssn_pattern : regex :=
  Cat [Boundary; Times 3 (Class is_digit); Opt (Chr "-");
       Times 2 (Class is_digit); Opt (Chr "-"); Times 4 (Class is_digit);
       Boundary].

(** [r'\b[A-Za-z0-9._%+-]+@[A-Za-z0-9.-]+\.[A-Z|a-z]{2,}\b'] *)
Definition email_pattern : regex :=
  Cat [Boundary;
       Plus (Class (fun c => is_letter c || is_digit c || one_of "._%+-" c));
       Chr "@";
       Plus (Class (fun c => is_letter c || is_digit c || one_of ".-" c));
       Chr ".";
       Repeat 2 None (Class (fun c => is_letter c || one_of "|" c));
       Boundary].

(** [r'\b(?:\+?1[-.\s]?)?\(?[0-9]{3}\)?[-.\s]?[0-9]{3}[-.\s]?[0-9]{4}\b'] *)
Definition phone_pattern : regex :=
  Cat [Boundary;
       Opt (Cat [Opt (Chr "+"); Chr "1"; Opt sep_class]);
       Opt (Chr "("); Times 3 (Class is_digit); Opt (Chr ")");
       Opt sep_class; Times 3 (Class is_digit);
       Opt sep_class; Times 4 (Class is_digit);
       Boundary].

(** [r'\b(?:\d{4}[-\s]?){3}\d{4}\b'] *)
Definition credit_card_pattern : regex :=
  Cat [Boundary;
       Times 3 (Cat [Times 4 (Class is_digit);
                     Opt (Class (fun c => one_of "-" c || is_space c))]);
       Times 4 (Class is_digit);
       Boundary].

(** [r'\b(?:[0-9]{1,3}\.){3}[0-9]{1,3}\b'] *)
Definition ip_address_pattern : regex :=
  Cat [Boundary;
       Times 3 (Cat [Repeat 1 (Some 3%nat) (Class is_digit); Chr "."]);
       Repeat 1 (Some 3%nat) (Class is_digit);
       Boundary].

(** The [patterns] dict, in insertion order. *)
Definition patterns : list (PIIType * regex) :=
  [(SSN, ssn_pattern);
   (EMAIL, email_pattern);
   (PHONE, phone_pattern);
   (CREDIT_CARD, credit_card_pattern);
   (IP_ADDRESS, ip_address_pattern)].

(** The float literal [0.8]: the binary64 value nearest to 8/10. *)
Definition float_0_8 : float := S754_finite false 7205759403792794 (-53).

(** The entity built for one match of [pattern]. *)
Definition entity_of_match (text : str) (pii_type : PIIType)
    (m : nat * nat) : PIIEntity :=
  mkPIIEntity
    (slice text (Z.of_nat (fst m)) (Z.of_nat (snd m)))   (* match.group() *)
    pii_type
    float_0_8
    (Z.of_nat (fst m))                                   (* match.start() *)
    (Z.of_nat (snd m))                                   (* match.end() *)
    None None.

Definition apply_regex_patterns (text : str) : list PIIEntity :=
  flat_map
    (fun '(pii_type, pattern) =>
       map (entity_of_match text pii_type) (finditer text pattern))
    patterns.

(* ================================================================== *)
(** ** [detect_pii_with_ai]: from the reply text to entities *)
(* ================================================================== *)

(** The body of the [try] block up to [json.loads]: the reply with its code
    block markers removed. *)
Definition strip_code_block (ai_content : str) : outcome str :=
  if contains (lit "```json") ai_content then
    after <- getindex (split ai_content (lit "```json")) 1 ;;
    getindex (split after (lit "```")) 0
  else if contains (lit "```") ai_content then
    after <- getindex (split ai_content (lit "```")) 1 ;;
    getindex (split after (lit "```")) 0
  else Returned ai_content.

(** [PIIType(v)]: the member whose value is [v]; [ValueError] when there is
    none. *)
Definition PIIType_call (v : json) : outcome PIIType :=
  match v with
  | JStr s =>
      match find (fun t => str_eqb (PIIType_value t) s) PIIType_members with
      | Some t => Returned t
      | None => Raised ValueError
      end
  | _ => Raised ValueError
  end.

(** [item[key]] for a string key: only a dict can be subscripted by one. *)
Definition getitem (item : json) (key : str) : outcome json :=
  match item with
  | JObj d =>
      match dict_get d key with
      | Some v => Returned v
      | None => Raised KeyError
      end
  | _ => Raised TypeError
  end.

(** The values [for item in pii_data] runs through: the elements of a list,
    the keys of a dict, the characters of a string; other values are not
    iterable. *)
Definition iterate (pii_data : json) : outcome (list json) :=
  match pii_data with
  | JArr l => Returned l
  | JObj d => Returned (map (fun kv => JStr (fst kv)) d)
  | JStr s => Returned (map (fun c => JStr [c]) s)
  | _ => Raised TypeError
  end.

(** The loop [for item in pii_data], [pii_entities] being the list built so
    far.  The inner [try] catches [ValueError] only. *)
Fixpoint convert_items (items : list json) (pii_entities : list DynEntity)
    : outcome (list DynEntity) :=
  match items with
  | [] => Returned pii_entities
  | item :: rest =>
      v <- getitem item (lit "pii_type") ;;
      match PIIType_call v with
      | Raised ValueError => convert_items rest pii_entities
      | Raised e => Raised e
      | Returned pii_type =>
          t <- getitem item (lit "text") ;;
          c <- getitem item (lit "confidence") ;;
          s <- getitem item (lit "start_position") ;;
          e <- getitem item (lit "end_position") ;;
          convert_items rest
            (pii_entities ++ [mkPIIEntity t pii_type c s e None None])
      end
  end.

Section AIExtractor.

(** [json.loads] on a [str]: the decoded value, or [None] when it raises
    [json.JSONDecodeError].  A decoded dict is an association list whose
    first binding of a key is the value of that key. *)
Variable json_loads : str -> option json.

(** [detect_pii_with_ai] from the stripped reply text [ai_content] on.
    The outer [try] catches [json.JSONDecodeError] only. *)
Definition detect_pii_with_ai (ai_content : str)
    : outcome (list DynEntity) :=
  body <- strip_code_block ai_content ;;
  match json_loads body with
  | None => Returned []
  | Some pii_data =>
      items <- iterate pii_data ;;
      convert_items items []
  end.

End AIExtractor.

(* ================================================================== *)
(** ** [create_redacted_text] *)
(* ================================================================== *)

(** [f"[REDACTED-{entity.pii_type.name}]"] *)
Definition placeholder (entity : PIIEntity) : str :=
  lit "[REDACTED-" ++ PIIType_name (pii_type entity) ++ lit "]".

(** [sorted(..., key=lambda x: x.start_position, reverse=True)]: a stable
    sort, so entities with equal keys keep their input order. *)
Fixpoint insert_by_start (x : PIIEntity) (l : list PIIEntity)
    : list PIIEntity :=
  match l with
  | [] => [x]
  | y :: l' =>
      if start_position y >? start_position x
      then y :: insert_by_start x l'
      else x :: y :: l'
  end.

Definition sorted_by_start_desc (l : list PIIEntity) : list PIIEntity :=
  fold_right insert_by_start [] l.

(** One iteration of the loop: the span of [entity] replaced in
    [redacted_text]. *)
Definition splice (redacted_text : str) (entity : PIIEntity) : str :=
  slice_to redacted_text (start_position entity)
  ++ placeholder entity
  ++ slice_from redacted_text (end_position entity).

Definition create_redacted_text (original_text : str)
    (pii_entities : list PIIEntity) : str :=
  fold_left splice (sorted_by_start_desc pii_entities) original_text.

(* ================================================================== *)
(** ** [generate_redaction_report] *)
(* ================================================================== *)

(** A Python number: [avg_confidence] is the int [0] or a float. *)
Inductive number : Type :=
| NInt (n : Z)
| NFloat (x : float).

(** An element of the report's ["entities"] list. *)
Record ReportEntry : Type := mkReportEntry {
  entry_text : str;
  entry_type : str;
  entry_confidence : float;
  entry_position : str
}.

(** The dict [generate_redaction_report] returns. *)
Record RedactionReport : Type := mkRedactionReport {
  total_redactions : Z;
  average_confidence : number;
  by_type : dict Z;
  entities : list ReportEntry
}.

(** One iteration of the counting loop. *)
Definition count_entity (summary : dict Z) (entity : PIIEntity) : dict Z :=
  let pii_type_name := PIIType_value (pii_type entity) in
  dict_set summary pii_type_name
    (match dict_get summary pii_type_name with
     | Some n => n
     | None => 0
     end + 1).

Definition report_entry (entity : PIIEntity) : ReportEntry :=
  mkReportEntry
    (lit "***REDACTED***")
    (PIIType_value (pii_type entity))
    (confidence entity)
    (str_of_int (start_position entity) ++ lit "-"
     ++ str_of_int (end_position entity)).

Section ReportGenerator.

(** Python's float arithmetic, as used on the confidences: [sum] of a
    non-empty sequence of floats, a float divided by an int, and
    [round(x, ndigits)] of a float. *)
Variable float_sum : list float -> float.
Variable float_truediv : float -> Z -> float.
Variable float_round : float -> Z -> float.

(** [round(x, ndigits)] for [ndigits >= 0]: an int is returned as it is. *)
Definition round (x : number) (ndigits : Z) : number :=
  match x with
  | NInt n => NInt n
  | NFloat f => NFloat (float_round f ndigits)
  end.

Definition generate_redaction_report (pii_entities : list PIIEntity)
    : RedactionReport :=
  let summary := fold_left count_entity pii_entities [] in
  let total_redactions := Z.of_nat (List.length pii_entities) in
  let avg_confidence :=
    if total_redactions >? 0
    then NFloat (float_truediv (float_sum (map confidence pii_entities))
                   total_redactions)
    else NInt 0 in
  mkRedactionReport
    total_redactions
    (round avg_confidence 3)
    summary
    (map report_entry pii_entities).

End ReportGenerator.

(* ================================================================== *)
(** ** [process_document], step 5: combine and deduplicate *)
(* ================================================================== *)

(** The test of the inner loop: [entity] lies within 5 characters of
    [existing] at both ends. *)
Definition is_near (entity existing : PIIEntity) : bool :=
  (Z.abs (start_position entity - start_position existing) <? 5)
  && (Z.abs (end_position entity - end_position existing) <? 5).

(** The inner loop with its [break]: is [entity] a duplicate of an element
    of [unique_entities]? *)
Definition is_duplicate (unique_entities : list PIIEntity)
    (entity : PIIEntity) : bool :=
  existsb (is_near entity) unique_entities.

(** One iteration of the outer loop. *)
Definition dedup_step (unique_entities : list PIIEntity)
    (entity : PIIEntity) : list PIIEntity :=
  if is_duplicate unique_entities entity
  then unique_entities
  else unique_entities ++ [entity].

(** The outer loop over [all_entities], from [unique_entities = []]. *)
Definition deduplicate (all_entities : list PIIEntity) : list PIIEntity :=
  fold_left dedup_step all_entities [].

(** [all_entities = ai_entities + regex_entities], then the loop. *)
Definition merge_entities (ai_entities regex_entities : list PIIEntity)
    : list PIIEntity :=
  deduplicate (ai_entities ++ regex_entities).

(* ================================================================== *)
(** ** Notions used in the statements *)
(* ================================================================== *)

(** The sum of the counts of a [by_type] dict. *)
Definition sum_counts (d : dict Z) : Z :=
  fold_right (fun kv acc => snd kv + acc) 0 d.

(** [e'] is [e] with its [text] replaced. *)
Definition text_replaced (e e' : PIIEntity) : Prop :=
  exists t : str,
    e' = mkPIIEntity t (pii_type e) (confidence e) (start_position e)
           (end_position e) (page_number e) (bounding_box e).

(** The two entities are at least 5 apart at the start or at the end. *)
Definition far_apart (a b : PIIEntity) : Prop :=
  5 <= Z.abs (start_position a - start_position b)
  \/ 5 <= Z.abs (end_position a - end_position b).

(** The offsets of [e] delimit a non-empty span of [source]. *)
Definition offsets_valid (source : str) (e : PIIEntity) : Prop :=
  0 <= start_position e < end_position e /\ end_position e <= len source.

(** The spans of [a] and [b] do not overlap. *)
Definition disjoint (a b : PIIEntity) : Prop :=
  end_position a <= start_position b \/ end_position b <= start_position a.

(** [a] ends before [b] starts. *)
Definition before (a b : PIIEntity) : Prop :=
  end_position a <= start_position b.

(** The text from [pos] to [stop] with the spans of [asc], taken in the
    order given, replaced by placeholders: the stretches of [source] between
    the spans are copied as they are. *)
Fixpoint interleave (source : str) (pos : Z) (asc : list PIIEntity)
    (stop : Z) : str :=
  match asc with
  | [] => slice source pos stop
  | e :: rest =>
      slice source pos (start_position e)
      ++ placeholder e
      ++ interleave source (end_position e) rest stop
  end.

(** Does every match of [r] consume at least one character? *)
Fixpoint consumes (r : regex) : bool :=
  match r with
  | Empty | Boundary => false
  | Class _ => true
  | Seq r1 r2 => consumes r1 || consumes r2
  | Repeat lo _ r1 => (0 <? lo)%nat && consumes r1
  end.

(** Where a successful match that started at [i] hands over to its
    continuation: not before [i], strictly later when [strict] holds, and
    inside the string [s]. *)
Definition advances (s : str) (strict : bool) (i j : nat) : Prop :=
  (i <= j)%nat
  /\ (strict = true -> (i < j)%nat)
  /\ ((i <= List.length s)%nat -> (j <= List.length s)%nat).

(** The offsets of an entity of the AI extractor are ints that delimit a
    non-empty span of [source]. *)
Definition dyn_offsets_valid (source : str) (e : DynEntity) : Prop :=
  exists s t : Z,
    start_position e = JInt s /\ end_position e = JInt t
    /\ 0 <= s < t /\ t <= len source.

(** The item is a dict whose ["pii_type"] is the name of a category, as the
    prompt of [detect_pii_with_ai] asks for, other than ["URL"]. *)
Definition named_as_prompted (item : json) : Prop :=
  exists (d : list (str * json)) (t : PIIType),
    item = JObj d
    /\ dict_get d (lit "pii_type") = Some (JStr (PIIType_name t))
    /\ t <> URL.

(* ================================================================== *)
(** ** Sample data *)
(* ================================================================== *)

(** JSON text written with apostrophes in place of double quotes. *)
Definition json_text (s : string) : str :=
  map (fun c => if Ascii.eqb c "'" then ascii_of_nat 34 else c) (lit s).

(** The binary64 value nearest to [a / b], as a decimal literal denotes. *)
Definition float_of_ratio (a b : positive) : float :=
  SFdiv 53 1024 (S754_finite false a 0) (S754_finite false b 0).

Definition entity_at (t : PIIType) (start_ end_ : Z) : PIIEntity :=
  mkPIIEntity (lit "x") t float_0_8 start_ end_ None None.

Definition sample_text : str :=
  lit "Contact me at jane@example.com or 555-123-4567.".

Definition reply_by_name : str :=
  json_text "[{'text': 'jane@example.com', 'pii_type': 'EMAIL', 'confidence': 0.95, 'start_position': 14, 'end_position': 30}]".

Definition parsed_by_name : json :=
  JArr [JObj [(lit "text", JStr (lit "jane@example.com"));
              (lit "pii_type", JStr (lit "EMAIL"));
              (lit "confidence", JFloat (float_of_ratio 95 100));
              (lit "start_position", JInt 14);
              (lit "end_position", JInt 30)]].

Definition reply_out_of_range : str :=
  json_text "[{'text': 'jane@example.com', 'pii_type': 'Email Address', 'confidence': 0.95, 'start_position': 100, 'end_position': 50}]".

Definition parsed_out_of_range : json :=
  JArr [JObj [(lit "text", JStr (lit "jane@example.com"));
              (lit "pii_type", JStr (lit "Email Address"));
              (lit "confidence", JFloat (float_of_ratio 95 100));
              (lit "start_position", JInt 100);
              (lit "end_position", JInt 50)]].


(** [json.loads] on the sample replies: a table for the texts above, every
    other text being taken as malformed. *)
Definition sample_json_loads (body : str) : option json :=
  dict_get [(reply_by_name, parsed_by_name);
            (reply_out_of_range, parsed_out_of_range)] body.

(* ================================================================== *)
(** ** Further notions used in the statements *)
(* ================================================================== *)

(** [l1] is [l2] with some of its elements left out, the others in the
    order they have in [l2]. *)
Inductive subsequence {A : Type} : list A -> list A -> Prop :=
| subsequence_nil : subsequence [] []
| subsequence_skip (x : A) (l1 l2 : list A) :
    subsequence l1 l2 -> subsequence l1 (x :: l2)
| subsequence_keep (x : A) (l1 l2 : list A) :
    subsequence l1 l2 -> subsequence (x :: l1) (x :: l2).

Definition PIIType_eqb (a b : PIIType) : bool :=
  match a, b with
  | SSN, SSN | EMAIL, EMAIL | PHONE, PHONE | ADDRESS, ADDRESS
  | CREDIT_CARD, CREDIT_CARD | NAME, NAME | DATE_OF_BIRTH, DATE_OF_BIRTH
  | DRIVER_LICENSE, DRIVER_LICENSE | PASSPORT, PASSPORT
  | BANK_ACCOUNT, BANK_ACCOUNT | IP_ADDRESS, IP_ADDRESS | URL, URL => true
  | _, _ => false
  end.

(** The number of entities of category [t]. *)
Definition count_type (t : PIIType) (es : list PIIEntity) : Z :=
  Z.of_nat (List.length (filter (fun e => PIIType_eqb (pii_type e) t) es)).

(** The dict [d] holds, for each category, the number of the entities
    [seen] of that category, categories that do not occur having no entry. *)
Definition counts_of (d : dict Z) (seen : list PIIEntity) : Prop :=
  forall t, dict_get d (PIIType_value t)
            = if count_type t seen =? 0 then None else Some (count_type t seen).

(** The 256 characters of the model. *)
Definition all_ascii : list ascii := map ascii_of_nat (seq 0 256).

(** Every character of the class [q] is in the class [p]. *)
Definition class_within (q p : ascii -> bool) : bool :=
  forallb (fun c => implb (q c) (p c)) all_ascii.

(** Does every match of [r] go through a character of the class [p]? *)
Fixpoint needs (p : ascii -> bool) (r : regex) : bool :=
  match r with
  | Empty | Boundary => false
  | Class q => class_within q p
  | Seq r1 r2 => needs p r1 || needs p r2
  | Repeat lo _ r1 => (0 <? lo)%nat && needs p r1
  end.

(** A digit or the at sign. *)
Definition digit_or_at (c : ascii) : bool := is_digit c || Ascii.eqb c "@".

(** Further sample replies: a JSON object instead of a list, and a list
    whose second item has no ["confidence"]. *)
Definition reply_object : str :=
  json_text "{'entities': [], 'note': 'no PII found'}".

Definition parsed_object : json :=
  JObj [(lit "entities", JArr []); (lit "note", JStr (lit "no PII found"))].

Definition reply_incomplete : str :=
  json_text "[{'text': 'jane@example.com', 'pii_type': 'Email Address', 'confidence': 1, 'start_position': 14, 'end_position': 30}, {'text': '555-123-4567', 'pii_type': 'Phone Number', 'start_position': 34, 'end_position': 46}]".

Definition item_complete : json :=
  JObj [(lit "text", JStr (lit "jane@example.com"));
        (lit "pii_type", JStr (lit "Email Address"));
        (lit "confidence", JInt 1);
        (lit "start_position", JInt 14);
        (lit "end_position", JInt 30)].

Definition dict_incomplete : list (str * json) :=
  [(lit "text", JStr (lit "555-123-4567"));
   (lit "pii_type", JStr (lit "Phone Number"));
   (lit "start_position", JInt 34);
   (lit "end_position", JInt 46)].

(** [json.loads] on these two replies. *)
Definition more_json_loads (body : str) : option json :=
  dict_get [(reply_object, parsed_object);
            (reply_incomplete, JArr [item_complete; JObj dict_incomplete])]
    body.

(** What the loop of [detect_pii_with_ai] makes of an item that does not
    make it raise: [Some e] for a dict with the five keys whose
    ["pii_type"] is the value of a member, the entity [e] carrying the
    values of the other four keys as they are; [None] for a dict whose
    ["pii_type"] is no value of a member. *)
Inductive converts : json -> option DynEntity -> Prop :=
| converts_entity (d : list (str * json)) (t : PIIType)
    (vt vc vs ve : json) :
    dict_get d (lit "pii_type") = Some (JStr (PIIType_value t)) ->
    dict_get d (lit "text") = Some vt ->
    dict_get d (lit "confidence") = Some vc ->
    dict_get d (lit "start_position") = Some vs ->
    dict_get d (lit "end_position") = Some ve ->
    converts (JObj d) (Some (mkPIIEntity vt t vc vs ve None None))
| converts_dropped (d : list (str * json)) (v : json) :
    dict_get d (lit "pii_type") = Some v ->
    PIIType_call v = Raised ValueError ->
    converts (JObj d) None.

(** The entities among the results of the items. *)
Definition kept (outs : list (option DynEntity)) : list DynEntity :=
  flat_map (fun o => match o with Some e => [e] | None => [] end) outs.

(** The dict has ["pii_type"] bound to the value of a member and lacks one
    of the other four keys, or it has no ["pii_type"] at all. *)
Definition incomplete (d : list (str * json)) : Prop :=
  dict_get d (lit "pii_type") = None
  \/ ((exists t, dict_get d (lit "pii_type") = Some (JStr (PIIType_value t)))
      /\ (dict_get d (lit "text") = None
          \/ dict_get d (lit "confidence") = None
          \/ dict_get d (lit "start_position") = None
          \/ dict_get d (lit "end_position") = None)).

(** A decoded value that the loop can run through without raising at once:
    a list, or a dict or string with nothing in it. *)
Definition loop_enters (v : json) : bool :=
  match v with
  | JArr _ | JObj [] | JStr [] => true
  | _ => false
  end.

(** The string has no backtick in it. *)
Definition no_backtick (s : str) : Prop := Forall (fun c => c <> "`"%char) s.

(* ================================================================== *)
(** ** More of [str] *)
(* ================================================================== *)

(** [s.lstrip(...)], [s.rstrip(...)] and [s.strip(...)] for the set of
    characters that satisfy [p]. *)
Fixpoint lstrip_by (p : ascii -> bool) (s : str) : str :=
  match s with
  | [] => []
  | c :: s' => if p c then lstrip_by p s' else s
  end.

Definition rstrip_by (p : ascii -> bool) (s : str) : str :=
  rev (lstrip_by p (rev s)).

Definition strip_by (p : ascii -> bool) (s : str) : str :=
  rstrip_by p (lstrip_by p s).

(** [s.strip()]: whitespace is what [str.isspace] holds for. *)
Definition strip (s : str) : str := strip_by is_space s.

(** The double quote character. *)
Definition double_quote : ascii := ascii_of_nat 34.




(** [s.split(sep, 1)] for a one-character [sep] that occurs in [s]: what is
    before and after the first occurrence; [None] when [sep] is not in
    [s]. *)
Fixpoint split_first (sep : ascii) (s : str) : option (str * str) :=
  match s with
  | [] => None
  | c :: s' =>
      if Ascii.eqb c sep then Some ([], s')
      else match split_first sep s' with
           | Some (a, b) => Some (c :: a, b)
           | None => None
           end
  end.

(** A string is true when it is not empty. *)
Definition truthy_str (s : str) : bool :=
  match s with [] => false | _ :: _ => true end.

(* ================================================================== *)
(** ** [env_loader.load_dotenv] *)
(* ================================================================== *)

(** The body of the loop for one line [raw] of the file: the assignment
    [os.environ[k] = v] it makes, if any. *)
Definition dotenv_assignment (raw : str) : option (str * str) :=
  let line := strip raw in
  if negb (truthy_str line) || startswith (lit "#") line then None
  else
    match split_first "=" line with
    | None => None
    | Some (k, v) =>
        let k := strip k in
        let v := strip_by (Ascii.eqb double_quote)
                   (strip_by (Ascii.eqb "'") (strip v)) in
        if truthy_str k && truthy_str v then Some (k, v) else None
    end.





(** The string is not empty and its first, respectively last, character
    does not satisfy [p]. *)
Definition starts_outside (p : ascii -> bool) (m : str) : Prop :=
  exists c m', m = c :: m' /\ p c = false.

Definition ends_outside (p : ascii -> bool) (m : str) : Prop :=
  exists z m0, m = m0 ++ [z] /\ p z = false.

(** A quote character, single or double. *)
Definition is_quote (c : ascii) : bool :=
  Ascii.eqb "'" c || Ascii.eqb double_quote c.





(* ================================================================== *)
(** ** [analyze_document]: waiting for the analysis *)
(* ================================================================== *)

(** [c.lower()] for one character: the upper-case letters of ASCII and of
    Latin-1 are 32 below their lower-case forms. *)
Definition lower_char (c : ascii) : ascii :=
  let n := code c in
  if ((65 <=? n) && (n <=? 90)
      || (192 <=? n) && (n <=? 222) && negb (n =? 215))%N
  then ascii_of_N (n + 32)
  else c.

(** [s.lower()] *)
Definition lower (s : str) : str := map lower_char s.

(** The exceptions of the document analysis: those of [exn], and
    [AttributeError], the failure of a request to get a response, the
    [HTTPError] of [raise_for_status], the error of [response.json()] on a
    body that is not JSON, and the three [RuntimeError]s that
    [analyze_document] raises itself. *)
Inductive analyze_error : Type :=
| Exn (e : exn)
| AttributeError
| ConnectionFailed
| HTTPError
| BodyNotJSON
| NoOperationLocation
| AnalysisFailed (result : json)
| PollingTimeout.

(** What one [requests.get(operation_location, ...)] comes back with: no
    response at all, a status for which [raise_for_status] raises, a body
    that is not JSON, or the decoded body. *)
Inductive poll_reply : Type :=
| PollNoResponse
| PollHttpError
| PollNotJSON
| PollJSON (result : json).

(** [result.get("status", "").lower()]; [None] stands for the
    [AttributeError] of a [result] that is no dict or of a status that is no
    string. *)
Definition status_of (result : json) : option str :=
  match result with
  | JObj d =>
      match dict_get d (lit "status") with
      | None => Some (lower [])
      | Some (JStr s) => Some (lower s)
      | Some _ => None
      end
  | _ => None
  end.

(** The loop [for i in range(30)], with [n] iterations left, [i] requests
    made so far and [poll i] the reply to request number [i].  The result
    is what the function returns or raises, and the number of requests
    made. *)
Fixpoint poll_loop (poll : nat -> poll_reply) (n i : nat)
    : (json + analyze_error) * nat :=
  match n with
  | O => (inr PollingTimeout, i)
  | S n' =>
      match poll i with
      | PollNoResponse => (inr ConnectionFailed, S i)
      | PollHttpError => (inr HTTPError, S i)
      | PollNotJSON => (inr BodyNotJSON, S i)
      | PollJSON result =>
          match status_of result with
          | None => (inr AttributeError, S i)
          | Some status =>
              if str_eqb status (lit "succeeded") then (inl result, S i)
              else if str_eqb status (lit "failed")
                   then (inr (AnalysisFailed result), S i)
                   else poll_loop poll n' (S i)
          end
      end
  end.

(** What the [requests.post] comes back with: no response at all, a
    status for which [raise_for_status] raises, or the [operation-location]
    header of the response, if it has one. *)
Inductive submit_reply : Type :=
| SubmitNoResponse
| SubmitHttpError
| Submitted (operation_location : option str).

(** [analyze_document] from the response to the upload on. *)
Definition analyze_document (submit : submit_reply)
    (poll : nat -> poll_reply) : (json + analyze_error) * nat :=
  match submit with
  | SubmitNoResponse => (inr ConnectionFailed, O)
  | SubmitHttpError => (inr HTTPError, O)
  | Submitted operation_location =>
      match operation_location with
      | None | Some [] => (inr NoOperationLocation, O)
      | Some (_ :: _) => poll_loop poll 30 O
      end
  end.

(** The reply says that the analysis is still going on: its status is a
    string, or missing, and is neither ["succeeded"] nor ["failed"] in any
    letter case. *)
Definition pending (r : poll_reply) : Prop :=
  exists result status,
    r = PollJSON result /\ status_of result = Some status
    /\ status <> lit "succeeded" /\ status <> lit "failed".

(* ================================================================== *)
(** ** [extract_text_content] *)
(* ================================================================== *)

(** A value or a raised exception of the document analysis. *)
Definition result (A : Type) : Type := (A + analyze_error)%type.

Definition and_then {A B : Type} (m : result A) (f : A -> result B)
    : result B :=
  match m with
  | inl a => f a
  | inr e => inr e
  end.

(** The truth value of a decoded JSON value. *)
Definition truthy (v : json) : bool :=
  match v with
  | JNull => false
  | JBool b => b
  | JInt n => negb (n =? 0)
  | JFloat (S754_zero _) => false
  | JFloat _ => true
  | JStr s => truthy_str s
  | JArr [] => false
  | JArr (_ :: _) => true
  | JObj [] => false
  | JObj (_ :: _) => true
  end.

(** [v.get(key, default)]: only a dict has the method. *)
Definition get (v : json) (key : str) (default : json) : result json :=
  match v with
  | JObj d =>
      inl (match dict_get d key with Some x => x | None => default end)
  | _ => inr AttributeError
  end.

(** The values a [for] runs through, as in [iterate]. *)
Definition iterate_result (v : json) : result (list json) :=
  match iterate v with
  | Returned l => inl l
  | Raised e => inr (Exn e)
  end.

(** [[x.get("content", "") for x in items]] *)
Fixpoint contents (items : list json) : result (list json) :=
  match items with
  | [] => inl []
  | x :: rest =>
      and_then (get x (lit "content") (JStr []))
        (fun c => and_then (contents rest) (fun cs => inl (c :: cs)))
  end.

(** [sep.join(parts)] for strings. *)
Definition join (sep : str) (parts : list str) : str :=
  match parts with
  | [] => []
  | x :: rest => x ++ List.concat (map (fun y => sep ++ y) rest)
  end.

(** The strings of a list of values; a value that is no string makes
    [str.join] raise [TypeError]. *)
Fixpoint strings (vs : list json) : result (list str) :=
  match vs with
  | [] => inl []
  | JStr s :: rest => and_then (strings rest) (fun ss => inl (s :: ss))
  | _ :: _ => inr (Exn TypeError)
  end.

(** ["\n".join([x.get("content", "") for x in xs])] *)
Definition joined_contents (xs : json) : result str :=
  and_then (iterate_result xs)
    (fun items =>
       and_then (contents items)
         (fun cs =>
            and_then (strings cs)
              (fun ss => inl (join [ascii_of_nat 10] ss)))).

(** The loop over the pages, [text_content] being the text so far. *)
Fixpoint pages_text (pages : list json) (text_content : str) : result str :=
  match pages with
  | [] => inl text_content
  | page :: rest =>
      and_then (get page (lit "lines") (JArr []))
        (fun lines =>
           and_then (joined_contents lines)
             (fun page_text =>
                pages_text rest
                  (text_content ++ page_text ++ [ascii_of_nat 10])))
  end.

Definition extract_text_content (analysis_result : json) : result str :=
  and_then (get analysis_result (lit "analyzeResult") (JObj []))
    (fun analyze_result =>
       and_then (get analyze_result (lit "paragraphs") (JArr []))
         (fun paragraphs =>
            and_then
              (if truthy paragraphs
               then joined_contents paragraphs
               else
                 and_then (get analyze_result (lit "pages") (JArr []))
                   (fun pages =>
                      and_then (iterate_result pages)
                        (fun page_list => pages_text page_list [])))
              (fun text_content => inl (strip text_content)))).

(** The value is a dict whose ["content"] is the string [c]. *)
Definition has_content (x : json) (c : str) : Prop :=
  exists d, x = JObj d /\ dict_get d (lit "content") = Some (JStr c).

(** The value is a page: a dict whose ["lines"] is a list of values with
    the contents [ls]. *)
Definition has_lines (page : json) (ls : list str) : Prop :=
  exists d xs,
    page = JObj d /\ dict_get d (lit "lines") = Some (JArr xs)
    /\ Forall2 has_content xs ls.

(* ================================================================== *)
(** ** [process_document]: the names of the files written *)
(* ================================================================== *)

(** [s.rfind(c)] for one character: the highest index at which [c] occurs
    in [s], or [-1].  [i] is the index of the head of [s] and [last] the
    highest index found before it. *)
Fixpoint rfind_from (c : ascii) (s : str) (i last : Z) : Z :=
  match s with
  | [] => last
  | x :: s' => rfind_from c s' (i + 1) (if Ascii.eqb x c then i else last)
  end.

Definition rfind (s : str) (c : ascii) : Z := rfind_from c s 0 (-1).

(** [s.endswith(suffix)] *)
Definition endswith (s suffix : str) : bool :=
  startswith (rev suffix) (rev s).

(** [os.path.basename(p)], as [posixpath] has it: what follows the last
    slash. *)
Definition basename (p : str) : str := slice_from p (rfind p "/" + 1).

(** [os.path.splitext(p)], as [posixpath] has it: the extension starts at
    the last dot of the last component, unless only dots come before it
    there. *)
Definition splitext (p : str) : str * str :=
  let sepIndex := rfind p "/" in
  let dotIndex := rfind p "." in
  if (dotIndex >? sepIndex)
     && existsb (fun c => negb (Ascii.eqb c "."))
          (slice p (sepIndex + 1) dotIndex)
  then (slice_to p dotIndex, slice_from p dotIndex)
  else (p, []).

(** The two files [process_document] writes for [input_file]: the redacted
    text ([output_file], chosen here when none is given) and the report. *)
Definition output_files (input_file : str) (output_file : option str)
    : str * str :=
  let redacted :=
    match output_file with
    | Some (c :: f) => c :: f
    | _ =>
        let name := fst (splitext (basename input_file)) in
        if existsb (endswith (lower input_file))
             [lit ".png"; lit ".jpg"; lit ".jpeg"; lit ".tiff"; lit ".bmp"]
        then lit "../redacted_text/" ++ name ++ lit "_redacted.txt"
        else lit "../redacted_text/" ++ name ++ lit "_redacted.txt"
    end in
  let name := fst (splitext (basename input_file)) in
  (redacted, lit "../reports/" ++ name ++ lit "_pii_report.json").

(** A directory prefix of a path: nothing, or a string that ends with a
    slash. *)
Definition dir_prefix (pre : str) : Prop :=
  pre = [] \/ exists d, pre = d ++ ["/"%char].

(* ================================================================== *)
(** ** [detect_pii_with_ai] and the exceptions of [json.loads] *)
(* ================================================================== *)

(** [json.loads] does not fail with [json.JSONDecodeError] alone.  On arrays
    or objects nested deeper than the interpreter's recursion limit allows it
    raises [RecursionError], and on an integer numeral of more digits than
    [sys.get_int_max_str_digits()] (4300 unless changed) it raises a
    [ValueError] that is not a [json.JSONDecodeError].  An exception of the
    parsing half is one of [exn] or [RecursionError]. *)
Inductive exception : Type :=
| Exception (e : exn)
| RecursionError.

Definition raise_of {A : Type} (o : outcome A) : A + exception :=
  match o with
  | Returned a => inl a
  | Raised e => inr (Exception e)
  end.

Section AIExtractorExceptions.

(** [json.loads] on a [str]: the decoded value or the exception raised. *)
Variable json_loads : str -> json + exception.

(** The body of the outer [try] of [detect_pii_with_ai]. *)
Definition try_parse (ai_content : str) : list DynEntity + exception :=
  match raise_of (strip_code_block ai_content) with
  | inr e => inr e
  | inl body =>
      match json_loads body with
      | inr e => inr e
      | inl pii_data =>
          raise_of (items <- iterate pii_data ;; convert_items items [])
      end
  end.

(** [detect_pii_with_ai] from the stripped reply text [ai_content] on, with
    every exception of [json.loads]: [except json.JSONDecodeError] returns
    the empty list, and any other exception leaves the function. *)
Definition detect_pii_with_ai_loads (ai_content : str)
    : list DynEntity + exception :=
  match try_parse ai_content with
  | inr (Exception JSONDecodeError) => inl []
  | r => r
  end.

End AIExtractorExceptions.

(** A [json.loads] that fails with [json.JSONDecodeError] only, as
    [detect_pii_with_ai] above takes it. *)
Definition loads_of_decoder (decoder : str -> option json) (body : str)
    : json + exception :=
  match decoder body with
  | Some v => inl v
  | None => inr (Exception JSONDecodeError)
  end.




(* ================================================================== *)
(** ** Python's float arithmetic on the confidences *)
(* ================================================================== *)

(** The three builtins that [generate_redaction_report] applies to the
    confidences, [sum], [/] and [round], on binary64 values: each
    arithmetic operation gives the float nearest to its exact result, the
    one with an even significand at a tie. *)













(* ================================================================== *)
(** ** The report generator *)
(* ================================================================== *)

Lemma sum_counts_dict_set (d : dict Z) (key : str) :
  sum_counts
    (dict_set d key
       (match dict_get d key with Some n => n | None => 0 end + 1))
  = sum_counts d + 1.
Proof.
  induction d as [|[k w] d IH]; simpl.
  - lia.
  - destruct (str_eqb k key); simpl.
    + lia.
    + rewrite IH. lia.
Qed.

Lemma sum_counts_count_entity (d : dict Z) (e : PIIEntity) :
  sum_counts (count_entity d e) = sum_counts d + 1.
Proof. unfold count_entity. apply sum_counts_dict_set. Qed.

Lemma sum_counts_fold (es : list PIIEntity) :
  forall d : dict Z,
    sum_counts (fold_left count_entity es d)
    = sum_counts d + Z.of_nat (List.length es).
Proof.
  induction es as [|e es IH]; intro d.
  - simpl. lia.
  - cbn [fold_left List.length]. rewrite IH, sum_counts_count_entity. lia.
Qed.

Section ReportFacts.

Variable float_sum : list float -> float.
Variable float_truediv : float -> Z -> float.
Variable float_round : float -> Z -> float.

Lemma text_replaced_fields (e e' : PIIEntity) :
  text_replaced e e' ->
  pii_type e' = pii_type e /\ confidence e' = confidence e
  /\ report_entry e' = report_entry e.
Proof. intros [t ->]. repeat split. Qed.

Lemma count_entity_text_replaced (es es' : list PIIEntity) :
  Forall2 text_replaced es es' ->
  forall d, fold_left count_entity es' d = fold_left count_entity es d.
Proof.
  induction 1 as [|e e' es es' He _ IH]; intro d; simpl.
  - reflexivity.
  - rewrite IH. unfold count_entity.
    destruct (text_replaced_fields _ _ He) as [-> _]. reflexivity.
Qed.

Lemma map_text_replaced {B : Type} (f : PIIEntity -> B)
    (es es' : list PIIEntity) :
  (forall e e', text_replaced e e' -> f e' = f e) ->
  Forall2 text_replaced es es' -> map f es' = map f es.
Proof.
  intros Hf. induction 1 as [|e e' es es' He _ IH]; simpl.
  - reflexivity.
  - rewrite IH, (Hf _ _ He). reflexivity.
Qed.

(** The empty sequence is reported with the int [0] as its average: the
    conditional expression never divides by zero. *)
Lemma report_of_no_entities :
  generate_redaction_report float_sum float_truediv float_round []
  = mkRedactionReport 0 (NInt 0) [] [].
Proof. reflexivity. Qed.

(** C1. The report does not depend on the [text] of the entities: when the
    [text] of any of the input entities is replaced, the report stays the
    same, and each element of its per-entity listing carries the marker
    ["***REDACTED***"] as its text. *)
Theorem report_hides_text (es es' : list PIIEntity) :
  Forall2 text_replaced es es' ->
  generate_redaction_report float_sum float_truediv float_round es'
  = generate_redaction_report float_sum float_truediv float_round es
  /\ Forall (fun r => entry_text r = lit "***REDACTED***")
       (entities
          (generate_redaction_report float_sum float_truediv float_round
             es)).
Proof.
  intro H. split.
  - unfold generate_redaction_report.
    rewrite (count_entity_text_replaced _ _ H).
    rewrite (Forall2_length H).
    assert (Hc : map confidence es' = map confidence es).
    { apply map_text_replaced; auto.
      intros e e' He. apply (text_replaced_fields _ _ He). }
    assert (Hr : map report_entry es' = map report_entry es).
    { apply map_text_replaced; auto.
      intros e e' He. apply (text_replaced_fields _ _ He). }
    rewrite Hc, Hr. reflexivity.
  - unfold generate_redaction_report. cbn [entities].
    apply Forall_forall. intros r Hr.
    apply in_map_iff in Hr. destruct Hr as [e [<- _]]. reflexivity.
Qed.

(** C4. [total_redactions] is the length of the input sequence, and the
    counts of [by_type] add up to [total_redactions]. *)
Theorem report_totals (es : list PIIEntity) :
  total_redactions
    (generate_redaction_report float_sum float_truediv float_round es)
  = Z.of_nat (List.length es)
  /\ sum_counts
       (by_type
          (generate_redaction_report float_sum float_truediv float_round es))
     = total_redactions
         (generate_redaction_report float_sum float_truediv float_round es).
Proof.
  split.
  - reflexivity.
  - unfold generate_redaction_report. cbn [by_type total_redactions].
    rewrite sum_counts_fold. reflexivity.
Qed.

End ReportFacts.

Lemma report_hides_text_witness :
  Forall2 text_replaced
    [entity_at EMAIL 14 30]
    [mkPIIEntity (lit "jane@example.com") EMAIL float_0_8 14 30 None None]
  /\ generate_redaction_report (fun _ => float_0_8) (fun x _ => x)
       (fun x _ => x)
       [mkPIIEntity (lit "jane@example.com") EMAIL float_0_8 14 30 None None]
     = generate_redaction_report (fun _ => float_0_8) (fun x _ => x)
         (fun x _ => x) [entity_at EMAIL 14 30].
Proof.
  assert (H : Forall2 text_replaced
                [entity_at EMAIL 14 30]
                [mkPIIEntity (lit "jane@example.com") EMAIL float_0_8 14 30
                   None None]).
  { constructor; [|constructor]. exists (lit "jane@example.com"). reflexivity. }
  split.
  - exact H.
  - exact (proj1 (report_hides_text (fun _ => float_0_8) (fun x _ => x)
                    (fun x _ => x) _ _ H)).
Defined.

(* ================================================================== *)
(** ** The average confidence in float arithmetic *)
(* ================================================================== *)










(* ================================================================== *)
(** ** The merger *)
(* ================================================================== *)

Lemma is_near_spec (e a : PIIEntity) :
  is_near e a = true
  <-> Z.abs (start_position e - start_position a) < 5
      /\ Z.abs (end_position e - end_position a) < 5.
Proof.
  unfold is_near. rewrite andb_true_iff, !Z.ltb_lt. reflexivity.
Qed.

Lemma is_near_false_far (e a : PIIEntity) :
  is_near e a = false <-> far_apart a e.
Proof.
  unfold is_near, far_apart. rewrite andb_false_iff, !Z.ltb_ge. lia.
Qed.

Lemma is_duplicate_spec (unique : list PIIEntity) (e : PIIEntity) :
  is_duplicate unique e = true
  <-> exists a, In a unique
        /\ Z.abs (start_position e - start_position a) < 5
        /\ Z.abs (end_position e - end_position a) < 5.
Proof.
  unfold is_duplicate. rewrite existsb_exists.
  split; intros [a [Ha H]]; exists a; split; auto; now apply is_near_spec.
Qed.

Lemma is_duplicate_false (unique : list PIIEntity) (e : PIIEntity) :
  is_duplicate unique e = false
  <-> Forall (fun a => far_apart a e) unique.
Proof.
  unfold is_duplicate. induction unique as [|a l IH]; simpl.
  - split; auto.
  - rewrite orb_false_iff, IH, is_near_false_far. split.
    + intros [H1 H2]. constructor; assumption.
    + intro H. inversion H; subst. split; assumption.
Qed.

Lemma deduplicate_snoc (seen : list PIIEntity) (e : PIIEntity) :
  deduplicate (seen ++ [e]) = dedup_step (deduplicate seen) e.
Proof. unfold deduplicate. rewrite fold_left_app. reflexivity. Qed.

(** C3. First seen wins: the candidate [e] that comes after the entities
    [seen] is discarded exactly when an entity accepted so far is less than 5
    away from it at the start and at the end, and it is appended to the
    accepted entities otherwise.  Of two entities at [10,20) and [12,22) the
    first alone survives; entities at [10,20) and [30,40) both survive. *)
Theorem dedup_first_seen_wins :
  (forall (seen : list PIIEntity) (e : PIIEntity),
      ((exists a, In a (deduplicate seen)
          /\ Z.abs (start_position e - start_position a) < 5
          /\ Z.abs (end_position e - end_position a) < 5)
       /\ deduplicate (seen ++ [e]) = deduplicate seen)
      \/
      ((~ exists a, In a (deduplicate seen)
          /\ Z.abs (start_position e - start_position a) < 5
          /\ Z.abs (end_position e - end_position a) < 5)
       /\ deduplicate (seen ++ [e]) = deduplicate seen ++ [e]))
  /\ (forall a b : PIIEntity,
        deduplicate
          [mkPIIEntity (text a) (pii_type a) (confidence a) 10 20
             (page_number a) (bounding_box a);
           mkPIIEntity (text b) (pii_type b) (confidence b) 12 22
             (page_number b) (bounding_box b)]
        = [mkPIIEntity (text a) (pii_type a) (confidence a) 10 20
             (page_number a) (bounding_box a)])
  /\ (forall a c : PIIEntity,
        deduplicate
          [mkPIIEntity (text a) (pii_type a) (confidence a) 10 20
             (page_number a) (bounding_box a);
           mkPIIEntity (text c) (pii_type c) (confidence c) 30 40
             (page_number c) (bounding_box c)]
        = [mkPIIEntity (text a) (pii_type a) (confidence a) 10 20
             (page_number a) (bounding_box a);
           mkPIIEntity (text c) (pii_type c) (confidence c) 30 40
             (page_number c) (bounding_box c)]).
Proof.
  split; [|split].
  - intros seen e. rewrite deduplicate_snoc. unfold dedup_step.
    destruct (is_duplicate (deduplicate seen) e) eqn:Hd.
    + left. split; [|reflexivity]. now apply is_duplicate_spec.
    + right. split; [|reflexivity].
      intro H. apply is_duplicate_spec in H. congruence.
  - intros a b. reflexivity.
  - intros a c. reflexivity.
Qed.

Lemma far_apart_sym (a b : PIIEntity) : far_apart a b -> far_apart b a.
Proof. unfold far_apart. lia. Qed.

Lemma ForallOrdPairs_snoc {A : Type} (R : A -> A -> Prop) (l : list A)
    (x : A) :
  ForallOrdPairs R l -> Forall (fun a => R a x) l ->
  ForallOrdPairs R (l ++ [x]).
Proof.
  induction 1 as [|a l Ha Hl IH]; intro Hx; simpl.
  - constructor; constructor.
  - inversion Hx; subst. constructor.
    + apply Forall_app. split; [assumption|]. constructor; auto.
    + apply IH. assumption.
Qed.

Lemma dedup_step_far (unique : list PIIEntity) (e : PIIEntity) :
  ForallOrdPairs far_apart unique ->
  ForallOrdPairs far_apart (dedup_step unique e).
Proof.
  intro H. unfold dedup_step.
  destruct (is_duplicate unique e) eqn:Hd; [assumption|].
  apply ForallOrdPairs_snoc; [assumption|].
  now apply is_duplicate_false.
Qed.

Lemma fold_dedup_far (l : list PIIEntity) :
  forall unique,
    ForallOrdPairs far_apart unique ->
    ForallOrdPairs far_apart (fold_left dedup_step l unique).
Proof.
  induction l as [|e l IH]; intros unique H; simpl.
  - assumption.
  - apply IH. now apply dedup_step_far.
Qed.

Lemma fold_dedup_fixed (l : list PIIEntity) :
  forall unique,
    ForallOrdPairs far_apart (unique ++ l) ->
    fold_left dedup_step l unique = unique ++ l.
Proof.
  induction l as [|e l IH]; intros unique H; simpl.
  - now rewrite app_nil_r.
  - assert (Hd : is_duplicate unique e = false).
    { apply is_duplicate_false. clear IH.
      induction unique as [|a u IHu]; [constructor|].
      simpl in H. inversion H as [|? ? Ha Hu]; subst. constructor.
      - rewrite Forall_app in Ha. destruct Ha as [_ Ha].
        now inversion Ha.
      - now apply IHu. }
    unfold dedup_step at 2. rewrite Hd.
    rewrite IH; rewrite <- app_assoc; [reflexivity|exact H].
Qed.

(** C10. The deduplication is idempotent: any two entities of its output
    are at least 5 apart at the start or at the end, and the filter returns
    its own output as it is. *)
Theorem deduplicate_idempotent (l : list PIIEntity) :
  ForallOrdPairs far_apart (deduplicate l)
  /\ deduplicate (deduplicate l) = deduplicate l.
Proof.
  assert (H : ForallOrdPairs far_apart (deduplicate l)).
  { apply fold_dedup_far. constructor. }
  split; [exact H|].
  unfold deduplicate at 1. now rewrite fold_dedup_fixed.
Qed.

(* ================================================================== *)
(** ** The pattern extractor on the sample text *)
(* ================================================================== *)

(** C9. On ["Contact me at jane@example.com or 555-123-4567."] the
    pattern extractor returns two entities and no more: an EMAIL entity
    with text ["jane@example.com"] and a PHONE entity with text
    ["555-123-4567"], each with confidence [0.8]. *)
Theorem regex_sample_entities :
  apply_regex_patterns
    (lit "Contact me at jane@example.com or 555-123-4567.")
  = [mkPIIEntity (lit "jane@example.com") EMAIL float_0_8 14 30 None None;
     mkPIIEntity (lit "555-123-4567") PHONE float_0_8 34 46 None None]
  /\ float_0_8 = float_of_ratio 8 10.
Proof. split; vm_compute; reflexivity. Qed.

(* ================================================================== *)
(** ** The redactor *)
(* ================================================================== *)

Lemma slice_index_in_range (n i : Z) :
  0 <= i <= n -> slice_index n i = Z.to_nat i.
Proof.
  intro H. unfold slice_index.
  destruct (Z.ltb_spec i 0); [lia|].
  f_equal. lia.
Qed.

Lemma len_app (a b : str) : len (a ++ b) = len a + len b.
Proof. unfold len. rewrite length_app. lia. Qed.

Lemma len_slice_to (s : str) (m : Z) :
  0 <= m <= len s -> len (slice_to s m) = m.
Proof.
  intro H. unfold slice_to. rewrite slice_index_in_range by assumption.
  unfold len in *. rewrite length_firstn. lia.
Qed.

Lemma slice_to_full (s : str) : slice_to s (len s) = s.
Proof.
  unfold slice_to. rewrite slice_index_in_range by (unfold len; lia).
  unfold len. rewrite Nat2Z.id. apply firstn_all.
Qed.

(** A prefix of the source followed by anything: slicing below the length of
    the prefix sees the source only. *)
Lemma slice_to_prefix (s r : str) (m a : Z) :
  0 <= a <= m -> m <= len s ->
  slice_to (slice_to s m ++ r) a = slice_to s a.
Proof.
  intros Ha Hm.
  assert (Hl : len (slice_to s m) = m) by (apply len_slice_to; lia).
  unfold slice_to at 1. rewrite len_app, Hl.
  assert (0 <= len r) by (unfold len; lia).
  rewrite slice_index_in_range by lia.
  rewrite firstn_app.
  replace (Z.to_nat a - List.length (slice_to s m))%nat with O
    by (unfold len in Hl; lia).
  rewrite firstn_O, app_nil_r.
  unfold slice_to. rewrite !slice_index_in_range by lia.
  rewrite firstn_firstn. f_equal. lia.
Qed.

Lemma slice_from_prefix (s r : str) (m a : Z) :
  0 <= a <= m -> m <= len s ->
  slice_from (slice_to s m ++ r) a = slice s a m ++ r.
Proof.
  intros Ha Hm.
  assert (Hl : len (slice_to s m) = m) by (apply len_slice_to; lia).
  unfold slice_from. rewrite len_app, Hl.
  assert (0 <= len r) by (unfold len; lia).
  rewrite slice_index_in_range by lia.
  rewrite skipn_app.
  replace (Z.to_nat a - List.length (slice_to s m))%nat with O
    by (unfold len in Hl; lia).
  rewrite skipn_O.
  unfold slice, slice_to. rewrite !slice_index_in_range by lia.
  reflexivity.
Qed.

Lemma slice_0 (s : str) (m : Z) : slice s 0 m = slice_to s m.
Proof.
  unfold slice, slice_to.
  replace (slice_index (len s) 0) with O; [reflexivity|].
  unfold slice_index. simpl. unfold len. lia.
Qed.

Lemma interleave_snoc (source : str) (asc : list PIIEntity) (e : PIIEntity)
    (stop : Z) :
  forall pos,
    interleave source pos (asc ++ [e]) stop
    = interleave source pos asc (start_position e)
      ++ placeholder e ++ slice source (end_position e) stop.
Proof.
  induction asc as [|a asc IH]; intro pos; cbn [interleave app].
  - reflexivity.
  - rewrite IH, <- !app_assoc. reflexivity.
Qed.

(** The loop of [create_redacted_text] on entities in descending order of
    start, none of which reaches beyond [m]: what lies from [m] on in the
    current text is left alone. *)
Lemma fold_splice_desc (source : str) (l : list PIIEntity) :
  forall (m : Z) (r : str),
    0 <= m <= len source ->
    Forall (fun e => 0 <= start_position e < end_position e
                     /\ end_position e <= m) l ->
    StronglySorted (fun a b => before b a) l ->
    fold_left splice l (slice_to source m ++ r)
    = interleave source 0 (rev l) m ++ r.
Proof.
  induction l as [|e l IH]; intros m r Hm Hv Hs.
  - simpl. now rewrite slice_0.
  - inversion Hv as [|? ? [He1 He2] Hv']; subst.
    inversion Hs as [|? ? Hs' Hb]; subst.
    cbn [fold_left rev]. unfold splice at 2.
    rewrite slice_to_prefix, slice_from_prefix by lia.
    rewrite IH; [| lia | | assumption].
    + rewrite interleave_snoc, <- !app_assoc. reflexivity.
    + rewrite Forall_forall in *. intros b Hin.
      specialize (Hv' b Hin). specialize (Hb b Hin).
      unfold before in Hb. lia.
Qed.

Lemma insert_by_start_perm (x : PIIEntity) (l : list PIIEntity) :
  Permutation (insert_by_start x l) (x :: l).
Proof.
  induction l as [|y l IH]; simpl.
  - reflexivity.
  - destruct (start_position y >? start_position x).
    + rewrite IH. apply perm_swap.
    + reflexivity.
Qed.

Lemma sorted_by_start_desc_perm (l : list PIIEntity) :
  Permutation (sorted_by_start_desc l) l.
Proof.
  induction l as [|x l IH]; simpl.
  - reflexivity.
  - rewrite insert_by_start_perm. now constructor.
Qed.

(** Inserting a span that overlaps none of a chain of spans, each lying
    before its predecessors, gives such a chain again. *)
Lemma insert_by_start_chain (source : str) (x : PIIEntity)
    (l : list PIIEntity) :
  offsets_valid source x ->
  Forall (offsets_valid source) l ->
  Forall (disjoint x) l ->
  StronglySorted (fun a b => before b a) l ->
  StronglySorted (fun a b => before b a) (insert_by_start x l).
Proof.
  intros Hx. induction l as [|y l IH]; intros Hv Hd Hs; simpl.
  - repeat constructor.
  - inversion Hv as [|? ? Hy Hv']; subst.
    inversion Hd as [|? ? Hxy Hd']; subst.
    inversion Hs as [|? ? Hs' Hb]; subst.
    unfold offsets_valid, disjoint, before in *.
    destruct (Z.gtb_spec (start_position y) (start_position x)).
    + constructor; [now apply IH|].
      eapply Permutation_Forall.
      * symmetry. apply insert_by_start_perm.
      * constructor; [lia | assumption].
    + constructor; [assumption|].
      constructor; [lia|].
      rewrite Forall_forall in *. intros b Hin.
      specialize (Hb b Hin). lia.
Qed.

Lemma sorted_by_start_desc_chain (source : str) (l : list PIIEntity) :
  Forall (offsets_valid source) l ->
  ForallOrdPairs disjoint l ->
  StronglySorted (fun a b => before b a) (sorted_by_start_desc l).
Proof.
  induction l as [|x l IH]; intros Hv Hd; simpl.
  - constructor.
  - inversion Hv; subst. inversion Hd; subst.
    apply insert_by_start_chain with (source := source); auto.
    + eapply Permutation_Forall;
        [symmetry; apply sorted_by_start_desc_perm | assumption].
    + eapply Permutation_Forall;
        [symmetry; apply sorted_by_start_desc_perm | assumption].
Qed.

Lemma insert_by_start_sorted (x : PIIEntity) (l : list PIIEntity) :
  StronglySorted (fun a b => start_position b <= start_position a) l ->
  StronglySorted (fun a b => start_position b <= start_position a)
    (insert_by_start x l).
Proof.
  induction 1 as [|y l Hl IH Hy]; simpl.
  - repeat constructor.
  - destruct (Z.gtb_spec (start_position y) (start_position x)).
    + constructor; [assumption|].
      eapply Permutation_Forall.
      * symmetry. apply insert_by_start_perm.
      * constructor; [lia | assumption].
    + constructor.
      * constructor; assumption.
      * constructor; [lia|].
        eapply Forall_impl; [|exact Hy]. cbv beta. intros; lia.
Qed.

(** The loop runs through the entities in descending order of start. *)
Lemma sorted_by_start_desc_sorted (l : list PIIEntity) :
  StronglySorted (fun a b => start_position b <= start_position a)
    (sorted_by_start_desc l).
Proof.
  induction l as [|x l IH]; simpl.
  - constructor.
  - now apply insert_by_start_sorted.
Qed.

Lemma StronglySorted_snoc {A : Type} (R : A -> A -> Prop) (l : list A)
    (x : A) :
  StronglySorted R l -> Forall (fun a => R a x) l ->
  StronglySorted R (l ++ [x]).
Proof.
  induction 1 as [|a l Hl IH Ha]; intro Hx; simpl.
  - repeat constructor.
  - inversion Hx; subst. constructor.
    + now apply IH.
    + apply Forall_app. split; [assumption|]. constructor; auto.
Qed.

Lemma StronglySorted_rev {A : Type} (R : A -> A -> Prop) (l : list A) :
  StronglySorted R l -> StronglySorted (fun a b => R b a) (rev l).
Proof.
  induction 1 as [|a l Hl IH Ha]; simpl.
  - constructor.
  - apply StronglySorted_snoc; [assumption|].
    apply Forall_rev. assumption.
Qed.

(** C2. For entities with valid offsets whose spans do not overlap, the
    redacted text is the original text with each span replaced by its
    placeholder, the spans taken from left to right: every stretch of the
    original that lies outside the spans is copied unchanged, in order,
    between the placeholders. *)
Theorem redaction_keeps_surrounding_text (source : str)
    (es : list PIIEntity) :
  Forall (offsets_valid source) es ->
  ForallOrdPairs disjoint es ->
  exists asc : list PIIEntity,
    Permutation asc es
    /\ StronglySorted before asc
    /\ rev asc = sorted_by_start_desc es
    /\ create_redacted_text source es
       = interleave source 0 asc (len source).
Proof.
  intros Hv Hd.
  pose proof (sorted_by_start_desc_chain source es Hv Hd) as Hs.
  exists (rev (sorted_by_start_desc es)). repeat split.
  - rewrite <- Permutation_rev. apply sorted_by_start_desc_perm.
  - apply (StronglySorted_rev _ _ Hs).
  - apply rev_involutive.
  - unfold create_redacted_text.
    rewrite <- (slice_to_full source) at 1.
    rewrite <- (app_nil_r (slice_to source (len source))).
    rewrite (fold_splice_desc source); [now rewrite app_nil_r | | | exact Hs].
    + unfold len. lia.
    + eapply Permutation_Forall;
        [symmetry; apply sorted_by_start_desc_perm |].
      eapply Forall_impl; [|exact Hv].
      unfold offsets_valid. intros a Ha. lia.
Qed.

Lemma redaction_keeps_surrounding_text_witness :
  create_redacted_text (lit "A 123-45-6789 B 555-123-4567 C")
    [entity_at SSN 2 13; entity_at PHONE 16 28]
  = lit "A [REDACTED-SSN] B [REDACTED-PHONE] C".
Proof.
  destruct (redaction_keeps_surrounding_text
              (lit "A 123-45-6789 B 555-123-4567 C")
              [entity_at SSN 2 13; entity_at PHONE 16 28])
    as [asc [_ [_ [Hrev Heq]]]].
  - constructor; [|constructor; [|constructor]];
      unfold offsets_valid; vm_compute; intuition discriminate.
  - constructor; [|constructor; constructor].
    constructor; [|constructor]. left. vm_compute. discriminate.
  - rewrite Heq.
    rewrite <- (rev_involutive asc), Hrev. vm_compute. reflexivity.
Defined.

(* ================================================================== *)
(** ** The spans of the pattern extractor *)
(* ================================================================== *)

Section MatcherFacts.

Variable s : str.

Lemma repeat_greedy_advances
    (body : nat -> (nat -> option nat) -> option nat) (strict : bool) :
  (forall i k e, body i k = Some e ->
     exists j, k j = Some e /\ advances s strict i j) ->
  forall n lo i k e,
    repeat_greedy body lo n i k = Some e ->
    exists j, k j = Some e /\ advances s ((0 <? lo)%nat && strict) i j.
Proof.
  intros Hbody. induction n as [|n IH]; intros lo i k e H; simpl in H.
  - destruct lo; simpl in *; [|discriminate].
    exists i. split; [assumption|]. repeat split; auto; discriminate.
  - destruct (body i (fun j => repeat_greedy body (Nat.pred lo) n j k))
      as [e'|] eqn:Hb.
    + injection H as ->.
      apply Hbody in Hb. destruct Hb as [j1 [Hj1 [A1 [A2 A3]]]].
      apply IH in Hj1. destruct Hj1 as [j [Hj [B1 [_ B3]]]].
      exists j. split; [assumption|]. repeat split.
      * lia.
      * intro Hs. apply andb_true_iff in Hs. destruct Hs as [_ Hs].
        specialize (A2 Hs). lia.
      * auto.
    + destruct lo; simpl in *; [|discriminate].
      exists i. split; [assumption|]. repeat split; auto; discriminate.
Qed.

Lemma mtch_advances (r : regex) :
  forall i k e,
    mtch s r i k = Some e ->
    exists j, k j = Some e /\ advances s (consumes r) i j.
Proof.
  induction r as [| |p|r1 IH1 r2 IH2|lo hi r1 IH1]; intros i k e H;
    simpl in H.
  - exists i. split; [assumption|]. repeat split; auto; discriminate.
  - destruct (at_boundary s i); [|discriminate].
    exists i. split; [assumption|]. repeat split; auto; discriminate.
  - destruct (nth_error s i) as [c|] eqn:Hc; [|discriminate].
    destruct (p c); [|discriminate].
    exists (S i). split; [assumption|].
    assert (i < List.length s)%nat
      by (apply nth_error_Some; congruence).
    repeat split; lia.
  - apply IH1 in H. destruct H as [j1 [Hj1 [A1 [A2 A3]]]].
    apply IH2 in Hj1. destruct Hj1 as [j [Hj [B1 [B2 B3]]]].
    exists j. split; [assumption|]. repeat split.
    + lia.
    + simpl. intro Hs. apply orb_true_iff in Hs.
      destruct Hs as [Hs|Hs]; [specialize (A2 Hs)|specialize (B2 Hs)]; lia.
    + auto.
  - apply (repeat_greedy_advances (mtch s r1) (consumes r1) IH1) in H.
    exact H.
Qed.

Lemma match_at_span (r : regex) (i e : nat) :
  match_at s r i = Some e -> advances s (consumes r) i e.
Proof.
  unfold match_at. intro H. apply mtch_advances in H.
  destruct H as [j [Hj A]]. injection Hj as <-. exact A.
Qed.

Lemma search_span (r : regex) :
  forall fuel i st e,
    search s r fuel i = Some (st, e) ->
    (i <= st < i + fuel)%nat /\ advances s (consumes r) st e.
Proof.
  induction fuel as [|f IH]; intros i st e H; simpl in H.
  - discriminate.
  - destruct (match_at s r i) as [e'|] eqn:Hm.
    + injection H as <- <-. split; [lia|].
      now apply match_at_span.
    + apply IH in H. destruct H as [H1 H2]. split; [lia|assumption].
Qed.

(** Every span found by a consuming expression is non-empty and lies
    inside the string. *)
Lemma finditer_from_span (r : regex) :
  consumes r = true ->
  forall fuel i st e,
    In (st, e) (finditer_from s r fuel i) ->
    (i <= st < e)%nat /\ (e <= List.length s)%nat.
Proof.
  intros Hc. induction fuel as [|f IH]; intros i st e H.
  - contradiction.
  - cbn [finditer_from] in H.
    destruct (search s r (S (List.length s) - i) i) as [[st' e']|] eqn:Hs;
      [|contradiction].
    apply search_span in Hs. destruct Hs as [Hr [A1 [A2 A3]]].
    specialize (A2 Hc).
    destruct H as [H|H].
    + injection H as <- <-. lia.
    + apply IH in H.
      destruct (Nat.eqb_spec e' st'); lia.
Qed.

(** The fuel of [finditer] never runs out: more of it finds the same
    spans. *)
Lemma finditer_from_fuel (r : regex) :
  forall f1 f2 i,
    (List.length s < f1 + i)%nat -> (List.length s < f2 + i)%nat ->
    finditer_from s r f1 i = finditer_from s r f2 i.
Proof.
  assert (Hout : forall f i, (List.length s < i)%nat ->
                             finditer_from s r f i = []).
  { intros [|f] i Hi; [reflexivity|]. cbn [finditer_from].
    replace (S (List.length s) - i)%nat with O by lia. reflexivity. }
  induction f1 as [|f1 IH]; intros f2 i H1 H2.
  - rewrite !Hout by lia. reflexivity.
  - destruct f2 as [|f2].
    + rewrite !Hout by lia. reflexivity.
    + cbn [finditer_from].
      destruct (search s r (S (List.length s) - i) i) as [[st e]|] eqn:Hs;
        [|reflexivity].
      apply search_span in Hs. destruct Hs as [Hr [A1 _]].
      f_equal. apply IH; destruct (Nat.eqb_spec e st); lia.
Qed.

End MatcherFacts.

Lemma patterns_consume :
  Forall (fun p => consumes (snd p) = true) patterns.
Proof. repeat constructor. Qed.

(** C6, as the code has it.  Every entity of the pattern extractor has
    offsets with [0 <= start < end <= len(text)], and its text is the
    span [text[start:end]] of the input. *)
Theorem regex_entity_offsets (source : str) (e : PIIEntity) :
  In e (apply_regex_patterns source) ->
  0 <= start_position e < end_position e
  /\ end_position e <= len source
  /\ text e = slice source (start_position e) (end_position e).
Proof.
  unfold apply_regex_patterns. intro H.
  apply in_flat_map in H. destruct H as [[t r] [Hp H]].
  apply in_map_iff in H. destruct H as [[st en] [<- Hm]].
  assert (Hc : consumes r = true).
  { pose proof patterns_consume as Hall. rewrite Forall_forall in Hall.
    exact (Hall _ Hp). }
  apply (finditer_from_span source r Hc) in Hm.
  cbn [entity_of_match start_position end_position text fst snd].
  unfold len. repeat split; lia.
Qed.

Lemma regex_entity_offsets_witness :
  In (mkPIIEntity (lit "jane@example.com") EMAIL float_0_8 14 30 None None)
    (apply_regex_patterns sample_text)
  /\ lit "jane@example.com" = slice sample_text 14 30.
Proof.
  assert (H : In (mkPIIEntity (lit "jane@example.com") EMAIL float_0_8 14 30
                    None None)
                (apply_regex_patterns sample_text)).
  { vm_compute. left. reflexivity. }
  split.
  - exact H.
  - exact (proj2 (proj2 (regex_entity_offsets sample_text _ H))).
Defined.

(* ================================================================== *)
(** ** The AI extractor *)
(* ================================================================== *)

Lemma split_go_nonempty (sep : str) (s : str) :
  forall skip cur, exists a rest, split_go sep skip cur s = a :: rest.
Proof.
  induction s as [|c s IH]; intros skip cur; simpl.
  - eauto.
  - destruct skip as [|k]; [|apply IH].
    destruct (startswith sep (c :: s)); [eauto|apply IH].
Qed.

(** A separator that occurs in [s] cuts it into two parts at least. *)
Lemma split_go_two_parts (sep : str) (s : str) :
  sep <> [] -> contains sep s = true ->
  forall cur, exists a b rest, split_go sep O cur s = a :: b :: rest.
Proof.
  intros Hsep. induction s as [|c s IH]; intros H cur.
  - destruct sep; [congruence|discriminate].
  - cbn [split_go]. cbn [contains] in H.
    destruct (startswith sep (c :: s)).
    + destruct (split_go_nonempty sep s (Nat.pred (List.length sep)) [])
        as [b [rest ->]]. eauto.
    + apply IH. exact H.
Qed.

Lemma getindex_1_split (s sep : str) :
  sep <> [] -> contains sep s = true ->
  exists part, getindex (split s sep) 1 = Returned part.
Proof.
  intros Hsep H. unfold split.
  destruct (split_go_two_parts sep s Hsep H []) as [a [b [rest ->]]].
  exists b. reflexivity.
Qed.

Lemma getindex_0_split (s sep : str) :
  exists part, getindex (split s sep) 0 = Returned part.
Proof.
  unfold split.
  destruct (split_go_nonempty sep s O []) as [a [rest ->]].
  exists a. reflexivity.
Qed.

(** Removing the code block markers never raises: whenever a marker is
    looked for by index, the [in] test has found it. *)
Lemma strip_code_block_returns (ai_content : str) :
  exists body, strip_code_block ai_content = Returned body.
Proof.
  unfold strip_code_block.
  destruct (contains (lit "```json") ai_content) eqn:H1.
  - destruct (getindex_1_split ai_content (lit "```json")) as [p ->];
      [discriminate | assumption |].
    cbn [bind]. apply getindex_0_split.
  - destruct (contains (lit "```") ai_content) eqn:H2.
    + destruct (getindex_1_split ai_content (lit "```")) as [p ->];
        [discriminate | assumption |].
      cbn [bind]. apply getindex_0_split.
    + eauto.
Qed.




(** The parsing half raises no [json.JSONDecodeError] of its own. *)
Lemma PIIType_call_raises (v : json) (e : exn) :
  PIIType_call v = Raised e -> e = ValueError.
Proof.
  unfold PIIType_call. destruct v; try congruence.
  destruct (find _ _); congruence.
Qed.

Lemma getitem_raises (item : json) (key : str) (e : exn) :
  getitem item key = Raised e -> e <> JSONDecodeError.
Proof.
  unfold getitem. destruct item; try congruence.
  destruct (dict_get _ _); congruence.
Qed.

Lemma convert_items_raises (items : list json) :
  forall pii_entities e,
    convert_items items pii_entities = Raised e -> e <> JSONDecodeError.
Proof.
  induction items as [|item rest IH]; intros acc e; cbn [convert_items].
  - discriminate.
  - destruct (getitem item (lit "pii_type")) as [v|e0] eqn:Hv; cbn [bind];
      [|intros [= <-]; exact (getitem_raises _ _ _ Hv)].
    destruct (PIIType_call v) as [t|e0] eqn:Ht.
    + destruct (getitem item (lit "text")) as [x1|e1] eqn:H1; cbn [bind];
        [|intros [= <-]; exact (getitem_raises _ _ _ H1)].
      destruct (getitem item (lit "confidence")) as [x2|e2] eqn:H2;
        cbn [bind]; [|intros [= <-]; exact (getitem_raises _ _ _ H2)].
      destruct (getitem item (lit "start_position")) as [x3|e3] eqn:H3;
        cbn [bind]; [|intros [= <-]; exact (getitem_raises _ _ _ H3)].
      destruct (getitem item (lit "end_position")) as [x4|e4] eqn:H4;
        cbn [bind]; [|intros [= <-]; exact (getitem_raises _ _ _ H4)].
      apply IH.
    + rewrite (PIIType_call_raises _ _ Ht). apply IH.
Qed.

(** On a [json.loads] that fails with [json.JSONDecodeError] only, the
    extractor with every exception is [detect_pii_with_ai]. *)
Lemma detect_pii_with_ai_loads_of_decoder
    (decoder : str -> option json) (ai_content : str) :
  detect_pii_with_ai_loads (loads_of_decoder decoder) ai_content
  = raise_of (detect_pii_with_ai decoder ai_content).
Proof.
  destruct (strip_code_block_returns ai_content) as [body Hb].
  unfold detect_pii_with_ai_loads, try_parse, detect_pii_with_ai,
    loads_of_decoder.
  rewrite Hb. cbn [raise_of bind].
  destruct (decoder body) as [pii_data|]; [|reflexivity].
  destruct (iterate pii_data) as [items|e] eqn:Hi; cbn [bind raise_of].
  - destruct (convert_items items []) as [l|e] eqn:Hc; cbn [raise_of];
      [reflexivity|].
    pose proof (convert_items_raises _ _ _ Hc).
    destruct e; congruence.
  - destruct pii_data; cbn in Hi; try discriminate;
      injection Hi as <-; reflexivity.
Qed.

(** [PIIType(...)] looks a member up by its value: of the names of the
    members, only ["URL"] is also a value. *)
Lemma PIIType_call_name (t : PIIType) :
  t <> URL -> PIIType_call (JStr (PIIType_name t)) = Raised ValueError.
Proof. destruct t; intro H; try reflexivity. congruence. Qed.

Lemma PIIType_call_value (t : PIIType) :
  PIIType_call (JStr (PIIType_value t)) = Returned t.
Proof. destruct t; reflexivity. Qed.

(** An item whose ["pii_type"] is no member value is passed over. *)
Lemma convert_items_unknown (item : json) (v : json) (rest : list json)
    (acc : list DynEntity) :
  getitem item (lit "pii_type") = Returned v ->
  PIIType_call v = Raised ValueError ->
  convert_items (item :: rest) acc = convert_items rest acc.
Proof. intros Hg Hc. cbn [convert_items]. rewrite Hg. cbn [bind]. now rewrite Hc. Qed.

(** An item with the five keys whose ["pii_type"] is the value of a member
    becomes an entity that carries the item's fields as they are. *)
Lemma convert_items_by_value (d : list (str * json)) (t : PIIType)
    (vt vc vs ve : json) (rest : list json) (acc : list DynEntity) :
  dict_get d (lit "pii_type") = Some (JStr (PIIType_value t)) ->
  dict_get d (lit "text") = Some vt ->
  dict_get d (lit "confidence") = Some vc ->
  dict_get d (lit "start_position") = Some vs ->
  dict_get d (lit "end_position") = Some ve ->
  convert_items (JObj d :: rest) acc
  = convert_items rest (acc ++ [mkPIIEntity vt t vc vs ve None None]).
Proof.
  intros H1 H2 H3 H4 H5. cbn [convert_items getitem].
  rewrite H1. cbn [bind]. rewrite PIIType_call_value.
  rewrite H2, H3, H4, H5. reflexivity.
Qed.

Lemma convert_items_named (items : list json) :
  Forall named_as_prompted items ->
  forall acc, convert_items items acc = Returned acc.
Proof.
  induction 1 as [|item items [d [t [-> [Hd Ht]]]] _ IH]; intro acc.
  - reflexivity.
  - rewrite (convert_items_unknown _ (JStr (PIIType_name t))).
    + apply IH.
    + cbn [getitem]. now rewrite Hd.
    + now apply PIIType_call_name.
Qed.

(** C8, the code at the failing input.  A reply that is a JSON array of
    items whose ["pii_type"] is a category name of the prompt (["SSN"],
    ["EMAIL"], ..., any but ["URL"]) yields no entity at all: [PIIType(...)]
    takes the name for an unknown value and each item is passed over. *)
Theorem prompted_names_are_dropped (json_loads : str -> option json)
    (ai_content body : str) (items : list json) :
  strip_code_block ai_content = Returned body ->
  json_loads body = Some (JArr items) ->
  Forall named_as_prompted items ->
  detect_pii_with_ai json_loads ai_content = Returned [].
Proof.
  intros Hb Hj Hn. unfold detect_pii_with_ai.
  rewrite Hb. cbn [bind]. rewrite Hj. cbn [iterate bind].
  now apply convert_items_named.
Qed.

Lemma prompted_names_are_dropped_witness :
  sample_json_loads reply_by_name = Some parsed_by_name
  /\ detect_pii_with_ai sample_json_loads reply_by_name = Returned [].
Proof.
  split; [vm_compute; reflexivity|].
  apply (prompted_names_are_dropped sample_json_loads reply_by_name
           reply_by_name
           [JObj [(lit "text", JStr (lit "jane@example.com"));
                  (lit "pii_type", JStr (lit "EMAIL"));
                  (lit "confidence", JFloat (float_of_ratio 95 100));
                  (lit "start_position", JInt 14);
                  (lit "end_position", JInt 30)]]).
  - vm_compute. reflexivity.
  - vm_compute. reflexivity.
  - constructor; [|constructor].
    eexists. exists EMAIL. split; [reflexivity|].
    split; [reflexivity|discriminate].
Defined.

(** C6 fails for the AI extractor: the offsets of its entities are the
    ["start_position"] and ["end_position"] of the reply's items, which
    nothing compares with the text.  Here the source text has 47
    characters and the entity built has offsets 100 and 50. *)
Lemma ai_entity_offsets_unchecked :
  exists e : DynEntity,
    detect_pii_with_ai sample_json_loads reply_out_of_range = Returned [e]
    /\ start_position e = JInt 100
    /\ end_position e = JInt 50
    /\ len sample_text = 47
    /\ ~ dyn_offsets_valid sample_text e.
Proof.
  eexists. split; [vm_compute; reflexivity|].
  split; [reflexivity|]. split; [reflexivity|]. split; [reflexivity|].
  intros [s [t [Hs [Ht [H1 H2]]]]].
  cbn [start_position end_position] in Hs, Ht.
  injection Hs as <-. injection Ht as <-. lia.
Qed.

(* ================================================================== *)
(** ** More on the merger *)
(* ================================================================== *)

Lemma subsequence_refl {A : Type} (l : list A) : subsequence l l.
Proof. induction l; [constructor | now apply subsequence_keep]. Qed.

Lemma subsequence_app_skip {A : Type} (l1 l2 : list A) (x : A) :
  subsequence l1 l2 -> subsequence l1 (l2 ++ [x]).
Proof.
  induction 1; simpl.
  - apply subsequence_skip. constructor.
  - now apply subsequence_skip.
  - now apply subsequence_keep.
Qed.

Lemma subsequence_app_keep {A : Type} (l1 l2 : list A) (x : A) :
  subsequence l1 l2 -> subsequence (l1 ++ [x]) (l2 ++ [x]).
Proof.
  induction 1; simpl.
  - apply subsequence_keep. constructor.
  - now apply subsequence_skip.
  - now apply subsequence_keep.
Qed.

(** X1. The merger only drops entities: its output is the input with some
    entities left out, the others in their input order. *)
Theorem deduplicate_subsequence (l : list PIIEntity) :
  subsequence (deduplicate l) l.
Proof.
  induction l as [|e l IH] using rev_ind.
  - constructor.
  - rewrite deduplicate_snoc. unfold dedup_step.
    destruct (is_duplicate (deduplicate l) e).
    + now apply subsequence_app_skip.
    + now apply subsequence_app_keep.
Qed.

Lemma is_near_refl (e : PIIEntity) : is_near e e = true.
Proof. apply is_near_spec. rewrite !Z.sub_diag. simpl. lia. Qed.

Lemma dedup_step_keeps (unique : list PIIEntity) (e a : PIIEntity) :
  In a unique -> In a (dedup_step unique e).
Proof.
  intro H. unfold dedup_step. destruct (is_duplicate unique e); auto.
  apply in_or_app. now left.
Qed.

(** X2. No detection is dropped without a survivor next to it: every input
    entity has an entity of the output within less than 5 characters of it
    at the start and at the end. *)
Theorem deduplicate_covers (l : list PIIEntity) (e : PIIEntity) :
  In e l ->
  exists a, In a (deduplicate l)
    /\ Z.abs (start_position e - start_position a) < 5
    /\ Z.abs (end_position e - end_position a) < 5.
Proof.
  induction l as [|x l IH] using rev_ind; intro H.
  - contradiction.
  - rewrite deduplicate_snoc. apply in_app_or in H. destruct H as [H|H].
    + destruct (IH H) as [a [Ha Hn]]. exists a. split; [|exact Hn].
      now apply dedup_step_keeps.
    + destruct H as [<-|[]]. unfold dedup_step.
      destruct (is_duplicate (deduplicate l) x) eqn:Hd.
      * now apply is_duplicate_spec in Hd.
      * exists x. split.
        -- apply in_or_app. right. now left.
        -- rewrite !Z.sub_diag. simpl. lia.
Qed.

Lemma deduplicate_covers_witness :
  exists a, In a (deduplicate [entity_at EMAIL 10 20; entity_at EMAIL 12 22])
    /\ Z.abs (start_position (entity_at EMAIL 12 22) - start_position a) < 5
    /\ Z.abs (end_position (entity_at EMAIL 12 22) - end_position a) < 5.
Proof.
  apply (deduplicate_covers
           [entity_at EMAIL 10 20; entity_at EMAIL 12 22]
           (entity_at EMAIL 12 22)).
  right. left. reflexivity.
Defined.

(* ================================================================== *)
(** ** More on the report *)
(* ================================================================== *)

Lemma str_eqb_eq (a b : str) : str_eqb a b = true <-> a = b.
Proof.
  unfold str_eqb. rewrite String.eqb_eq. split.
  - intro H.
    rewrite <- (list_ascii_of_string_of_list_ascii a),
            <- (list_ascii_of_string_of_list_ascii b).
    now rewrite H.
  - now intros ->.
Qed.

Lemma dict_get_set {V : Type} (d : dict V) (k k' : str) (v : V) :
  dict_get (dict_set d k v) k'
  = if str_eqb k k' then Some v else dict_get d k'.
Proof.
  induction d as [|[k0 w] d IH]; simpl.
  - reflexivity.
  - destruct (str_eqb k0 k) eqn:E0; simpl.
    + apply str_eqb_eq in E0. subst k0.
      destruct (str_eqb k k'); reflexivity.
    + rewrite IH. destruct (str_eqb k0 k') eqn:E1; [|reflexivity].
      apply str_eqb_eq in E1. subst k0.
      destruct (str_eqb k k') eqn:E2; [|reflexivity].
      apply str_eqb_eq in E2. subst k'.
      assert (str_eqb k k = true) by now apply str_eqb_eq.
      congruence.
Qed.

Lemma PIIType_value_eqb (a b : PIIType) :
  str_eqb (PIIType_value a) (PIIType_value b) = PIIType_eqb a b.
Proof. destruct a, b; reflexivity. Qed.

Lemma PIIType_eqb_eq (a b : PIIType) : PIIType_eqb a b = true -> a = b.
Proof. destruct a, b; simpl; congruence. Qed.

Lemma count_type_snoc (t : PIIType) (seen : list PIIEntity)
    (e : PIIEntity) :
  count_type t (seen ++ [e])
  = count_type t seen + (if PIIType_eqb (pii_type e) t then 1 else 0).
Proof.
  unfold count_type, PIIEntity in *.
  rewrite filter_app, length_app. cbn [filter].
  destruct (PIIType_eqb (pii_type e) t); cbn [List.length]; lia.
Qed.

Lemma count_type_nonneg (t : PIIType) (es : list PIIEntity) :
  0 <= count_type t es.
Proof. unfold count_type. lia. Qed.

Lemma count_entity_counts (d : dict Z) (seen : list PIIEntity)
    (e : PIIEntity) :
  counts_of d seen -> counts_of (count_entity d e) (seen ++ [e]).
Proof.
  intros H t. unfold count_entity.
  rewrite dict_get_set, PIIType_value_eqb, count_type_snoc.
  pose proof (count_type_nonneg t seen) as Hc.
  destruct (PIIType_eqb (pii_type e) t) eqn:E.
  - apply PIIType_eqb_eq in E. subst t. rewrite (H (pii_type e)).
    destruct (Z.eqb_spec (count_type (pii_type e) seen) 0) as [E0|E0];
      destruct (Z.eqb_spec (count_type (pii_type e) seen + 1) 0);
      try lia; f_equal; lia.
  - rewrite H, Z.add_0_r. reflexivity.
Qed.

Lemma fold_count_entity_counts (es : list PIIEntity) :
  forall d seen,
    counts_of d seen ->
    counts_of (fold_left count_entity es d) (seen ++ es).
Proof.
  induction es as [|e es IH]; intros d seen H; cbn [fold_left].
  - now rewrite app_nil_r.
  - replace (seen ++ e :: es) with ((seen ++ [e]) ++ es)
      by (now rewrite <- app_assoc).
    apply IH. now apply count_entity_counts.
Qed.

(** X3. [by_type] maps the value of each category that occurs to the
    number of entities of that category, and has no entry for a category
    that does not occur. *)
Theorem report_counts_by_type (float_sum : list float -> float)
    (float_truediv float_round : float -> Z -> float)
    (es : list PIIEntity) (t : PIIType) :
  dict_get
    (by_type (generate_redaction_report float_sum float_truediv float_round es))
    (PIIType_value t)
  = if count_type t es =? 0 then None else Some (count_type t es).
Proof.
  unfold generate_redaction_report. cbn [by_type].
  apply (fold_count_entity_counts es [] []). intro t'. reflexivity.
Qed.

(* ================================================================== *)
(** ** More on the redactor *)
(* ================================================================== *)

Lemma insert_by_start_text_replaced (x x' : PIIEntity)
    (l l' : list PIIEntity) :
  text_replaced x x' -> Forall2 text_replaced l l' ->
  Forall2 text_replaced (insert_by_start x l) (insert_by_start x' l').
Proof.
  intros Hx. induction 1 as [|y y' l l' Hy Hl IH]; simpl.
  - constructor; [assumption|constructor].
  - assert (Hs : (start_position y' >? start_position x')
                 = (start_position y >? start_position x)).
    { destruct Hx as [t ->], Hy as [u ->]. reflexivity. }
    rewrite Hs. destruct (start_position y >? start_position x).
    + constructor; assumption.
    + constructor; [assumption|]. constructor; assumption.
Qed.

Lemma sorted_by_start_desc_text_replaced (l l' : list PIIEntity) :
  Forall2 text_replaced l l' ->
  Forall2 text_replaced (sorted_by_start_desc l) (sorted_by_start_desc l').
Proof.
  induction 1; simpl.
  - constructor.
  - now apply insert_by_start_text_replaced.
Qed.

Lemma splice_text_replaced (t : str) (e e' : PIIEntity) :
  text_replaced e e' -> splice t e' = splice t e.
Proof. intros [u ->]. reflexivity. Qed.

(** X4. The redactor reads the category and the offsets of an entity only:
    replacing the [text] of entities changes nothing in the redacted text
    (whether a span holds the [text] of its entity is never looked at). *)
Theorem redaction_ignores_text (source : str) (es es' : list PIIEntity) :
  Forall2 text_replaced es es' ->
  create_redacted_text source es' = create_redacted_text source es.
Proof.
  intro H. unfold create_redacted_text.
  apply sorted_by_start_desc_text_replaced in H.
  revert source.
  induction H as [|e e' l l' He _ IH]; intro source; simpl.
  - reflexivity.
  - rewrite (splice_text_replaced _ _ _ He). apply IH.
Qed.

Lemma redaction_ignores_text_witness :
  create_redacted_text sample_text
    [mkPIIEntity (lit "someone else") EMAIL float_0_8 14 30 None None]
  = create_redacted_text sample_text [entity_at EMAIL 14 30].
Proof.
  apply redaction_ignores_text.
  constructor; [|constructor]. exists (lit "someone else"). reflexivity.
Defined.

Lemma insert_by_start_comm (x y : PIIEntity) (l : list PIIEntity) :
  start_position x <> start_position y ->
  insert_by_start x (insert_by_start y l)
  = insert_by_start y (insert_by_start x l).
Proof.
  intro Hxy. induction l as [|z l IH]; simpl.
  - destruct (Z.gtb_spec (start_position y) (start_position x));
      destruct (Z.gtb_spec (start_position x) (start_position y));
      try reflexivity; lia.
  - destruct (Z.gtb_spec (start_position z) (start_position y));
      destruct (Z.gtb_spec (start_position z) (start_position x)); simpl;
      repeat match goal with
             | |- context [?a >? ?b] => destruct (Z.gtb_spec a b)
             end;
      try lia; try reflexivity; try (now rewrite IH).
Qed.

Lemma sorted_by_start_desc_permutation (l l' : list PIIEntity) :
  Permutation l l' ->
  NoDup (map start_position l) ->
  sorted_by_start_desc l = sorted_by_start_desc l'.
Proof.
  induction 1 as [|x l l' Hp IH|x y l|l l' l'' Hp1 IH1 Hp2 IH2];
    intro Hn; simpl.
  - reflexivity.
  - inversion Hn; subst. now rewrite IH.
  - apply insert_by_start_comm.
    inversion Hn as [|? ? Hy _]; subst. simpl in Hy.
    intro E. apply Hy. left. congruence.
  - rewrite IH1 by assumption. apply IH2.
    eapply Permutation_NoDup; [|exact Hn].
    now apply Permutation_map.
Qed.

Lemma disjoint_starts_differ (source : str) (l : list PIIEntity) :
  Forall (offsets_valid source) l ->
  ForallOrdPairs disjoint l ->
  NoDup (map start_position l).
Proof.
  induction l as [|x l IH]; intros Hv Hd; simpl.
  - constructor.
  - inversion Hv as [|? ? Hx Hv']; subst.
    inversion Hd as [|? ? Hxl Hd']; subst.
    constructor; [|now apply IH].
    intro Hin. apply in_map_iff in Hin. destruct Hin as [y [Hy Hin]].
    rewrite Forall_forall in Hv', Hxl.
    specialize (Hv' y Hin). specialize (Hxl y Hin).
    unfold offsets_valid, disjoint in *. lia.
Qed.

(** X5. For entities with valid offsets whose spans do not overlap, the
    redacted text does not depend on the order in which the entities are
    given. *)
Theorem redaction_order_independent (source : str)
    (es es' : list PIIEntity) :
  Forall (offsets_valid source) es ->
  ForallOrdPairs disjoint es ->
  Permutation es es' ->
  create_redacted_text source es' = create_redacted_text source es.
Proof.
  intros Hv Hd Hp. unfold create_redacted_text.
  rewrite (sorted_by_start_desc_permutation es es' Hp); [reflexivity|].
  now apply disjoint_starts_differ with (source := source).
Qed.

Lemma redaction_order_independent_witness :
  create_redacted_text (lit "A 123-45-6789 B 555-123-4567 C")
    [entity_at PHONE 16 28; entity_at SSN 2 13]
  = create_redacted_text (lit "A 123-45-6789 B 555-123-4567 C")
      [entity_at SSN 2 13; entity_at PHONE 16 28].
Proof.
  apply redaction_order_independent.
  - constructor; [|constructor; [|constructor]];
      unfold offsets_valid; vm_compute; intuition discriminate.
  - constructor; [|constructor; constructor].
    constructor; [|constructor]. left. vm_compute. discriminate.
  - apply perm_swap.
Defined.

(** X6. A span nested in another one breaks the redaction.  When [a] lies
    inside the span of [b], starts after it and its placeholder ends no
    later than [b] does, the inner replacement shifts the text by
    [d = len(placeholder a) - (end a - start a)] before the outer one is
    applied at the old offsets: the output is the text before [b], the
    placeholder of [b], and the original text from [end b - d] on.  For
    [d > 0] the last [d] characters of the span of [b] stay in the output;
    for [d < 0] the [-d] characters that follow the span are deleted. *)
Theorem nested_spans_redaction (source : str) (a b : PIIEntity)
    (es : list PIIEntity) :
  0 <= start_position b < start_position a ->
  start_position a < end_position a <= end_position b ->
  end_position b <= len source ->
  start_position a + len (placeholder a) <= end_position b ->
  Permutation [a; b] es ->
  create_redacted_text source es
  = slice_to source (start_position b)
    ++ placeholder b
    ++ slice_from source
         (end_position b
          - (len (placeholder a) - (end_position a - start_position a))).
Proof.
  intros Hb Ha Hl Hp Hperm.
  assert (Hs : sorted_by_start_desc es = [a; b]).
  { apply Permutation_length_2_inv in Hperm.
    destruct Hperm as [->| ->]; simpl.
    - destruct (Z.gtb_spec (start_position b) (start_position a));
        [lia|reflexivity].
    - destruct (Z.gtb_spec (start_position a) (start_position b));
        [reflexivity|lia]. }
  unfold create_redacted_text. rewrite Hs. cbn [fold_left].
  unfold splice at 1. f_equal.
  - unfold splice. apply slice_to_prefix; lia.
  - f_equal. unfold splice.
    assert (Hla : len (slice_to source (start_position a))
                  = start_position a) by (apply len_slice_to; lia).
    assert (Hlf : len (slice_from source (end_position a))
                  = len source - end_position a).
    { unfold slice_from. rewrite slice_index_in_range by lia.
      unfold len. rewrite length_skipn. unfold len in *. lia. }
    unfold slice_from at 1.
    rewrite !len_app, Hla, Hlf.
    rewrite app_assoc, skipn_app.
    assert (Hlen : Z.of_nat (List.length
                     (slice_to source (start_position a) ++ placeholder a))
                   = start_position a + len (placeholder a)).
    { fold (len (slice_to source (start_position a) ++ placeholder a)).
      now rewrite len_app, Hla. }
    assert (Hpos : 0 <= len (placeholder a)) by (unfold len; lia).
    rewrite (skipn_all2 (slice_to source (start_position a) ++ placeholder a))
      by (unfold slice_index; destruct (Z.ltb_spec (end_position b) 0); lia).
    cbn [app]. unfold slice_from. rewrite skipn_skipn.
    rewrite (slice_index_in_range (len source) (end_position a)) by lia.
    f_equal. unfold slice_index.
    destruct (Z.ltb_spec (end_position b) 0); [lia|].
    destruct (Z.ltb_spec
                (end_position b
                 - (len (placeholder a)
                    - (end_position a - start_position a))) 0); lia.
Qed.

Lemma nested_spans_redaction_witness :
  deduplicate (apply_regex_patterns (lit "user@10.20.30.40.example.com"))
  = [mkPIIEntity (lit "user@10.20.30.40.example.com") EMAIL float_0_8 0 28
       None None;
     mkPIIEntity (lit "10.20.30.40") IP_ADDRESS float_0_8 5 16 None None]
  /\ create_redacted_text (lit "user@10.20.30.40.example.com")
       (deduplicate
          (apply_regex_patterns (lit "user@10.20.30.40.example.com")))
     = lit "[REDACTED-EMAIL]xample.com".
Proof.
  assert (Hd : deduplicate
                 (apply_regex_patterns (lit "user@10.20.30.40.example.com"))
               = [mkPIIEntity (lit "user@10.20.30.40.example.com") EMAIL
                    float_0_8 0 28 None None;
                  mkPIIEntity (lit "10.20.30.40") IP_ADDRESS float_0_8 5 16
                    None None])
    by (vm_compute; reflexivity).
  split; [exact Hd|]. rewrite Hd.
  rewrite (nested_spans_redaction (lit "user@10.20.30.40.example.com")
             (mkPIIEntity (lit "10.20.30.40") IP_ADDRESS float_0_8 5 16
                None None)
             (mkPIIEntity (lit "user@10.20.30.40.example.com") EMAIL
                float_0_8 0 28 None None)).
  - vm_compute. reflexivity.
  - vm_compute. intuition discriminate.
  - vm_compute. intuition discriminate.
  - vm_compute. discriminate.
  - vm_compute. discriminate.
  - apply perm_swap.
Defined.

(* ================================================================== *)
(** ** More on the pattern extractor *)
(* ================================================================== *)

Section FinditerOrder.

Variable s : str.

Lemma finditer_from_ordered (r : regex) :
  consumes r = true ->
  forall fuel i,
    StronglySorted (fun m1 m2 => (snd m1 <= fst m2)%nat)
      (finditer_from s r fuel i).
Proof.
  intros Hc. induction fuel as [|f IH]; intro i; cbn [finditer_from].
  - constructor.
  - destruct (search s r (S (List.length s) - i) i) as [[st e]|] eqn:Hs;
      [|constructor].
    apply search_span in Hs. destruct Hs as [_ [_ [A2 _]]].
    specialize (A2 Hc).
    constructor; [apply IH|].
    apply Forall_forall. intros [st' e'] Hin.
    apply (finditer_from_span s r Hc) in Hin. cbn [fst snd].
    revert Hin. destruct (Nat.eqb_spec e st); lia.
Qed.

End FinditerOrder.

Lemma apply_regex_patterns_unfold (source : str) :
  apply_regex_patterns source
  = map (entity_of_match source SSN) (finditer source ssn_pattern)
    ++ map (entity_of_match source EMAIL) (finditer source email_pattern)
    ++ map (entity_of_match source PHONE) (finditer source phone_pattern)
    ++ map (entity_of_match source CREDIT_CARD)
         (finditer source credit_card_pattern)
    ++ map (entity_of_match source IP_ADDRESS)
         (finditer source ip_address_pattern).
Proof.
  unfold apply_regex_patterns, patterns. cbn [flat_map].
  now rewrite app_nil_r.
Qed.

Lemma filter_type_matches (source : str) (t t' : PIIType)
    (ms : list (nat * nat)) :
  filter (fun e : PIIEntity => PIIType_eqb (pii_type e) t)
    (map (entity_of_match source t') ms)
  = if PIIType_eqb t' t then map (entity_of_match source t') ms else [].
Proof.
  induction ms as [|m ms IH]; cbn [map filter].
  - now destruct (PIIType_eqb t' t).
  - cbn [entity_of_match pii_type]. rewrite IH.
    now destruct (PIIType_eqb t' t).
Qed.

Lemma matches_before (source : str) (t : PIIType) (r : regex) :
  consumes r = true ->
  StronglySorted before (map (entity_of_match source t) (finditer source r)).
Proof.
  intro Hc. unfold finditer.
  pose proof (finditer_from_ordered source r Hc (S (List.length source)) O)
    as H.
  induction H as [|m ms Hs IH Hm]; cbn [map].
  - constructor.
  - constructor; [assumption|].
    apply Forall_map. eapply Forall_impl; [|exact Hm].
    intros m' Hle. cbv beta in Hle. unfold before.
    cbn [entity_of_match start_position end_position]. lia.
Qed.

Lemma entities_of_type_ordered (source : str) (t : PIIType) :
  StronglySorted before
    (filter (fun e : PIIEntity => PIIType_eqb (pii_type e) t)
       (apply_regex_patterns source)).
Proof.
  rewrite apply_regex_patterns_unfold.
  unfold PIIEntity. rewrite !filter_app.
  fold PIIEntity. rewrite !filter_type_matches.
  destruct t; cbn [PIIType_eqb app]; rewrite ?app_nil_r;
    try constructor; now apply matches_before.
Qed.

Lemma StronglySorted_app_r {A : Type} (R : A -> A -> Prop) (a b : list A) :
  StronglySorted R (a ++ b) -> StronglySorted R b.
Proof.
  induction a as [|x a IH]; cbn [app]; intro H; [assumption|].
  inversion H; subst. now apply IH.
Qed.

Lemma PIIType_eqb_refl (t : PIIType) : PIIType_eqb t t = true.
Proof. now destruct t. Qed.

(** X7. The entities of one category come out of the pattern extractor
    from left to right and do not overlap: of two entities of the same
    category, the one that comes first in the result ends before the other
    one starts. *)
Theorem regex_entities_ordered (source : str) (l1 l2 l3 : list PIIEntity)
    (e1 e2 : PIIEntity) :
  apply_regex_patterns source = l1 ++ e1 :: l2 ++ e2 :: l3 ->
  pii_type e1 = pii_type e2 ->
  end_position e1 <= start_position e2.
Proof.
  intros H Ht.
  pose proof (entities_of_type_ordered source (pii_type e1)) as Hs.
  rewrite H in Hs. unfold PIIEntity in Hs.
  rewrite filter_app in Hs. apply StronglySorted_app_r in Hs.
  cbn [filter] in Hs. rewrite PIIType_eqb_refl in Hs.
  inversion Hs as [|? ? _ Hall]; subst.
  rewrite filter_app in Hall. apply Forall_app in Hall.
  destruct Hall as [_ Hall]. cbn [filter] in Hall.
  rewrite <- Ht, PIIType_eqb_refl in Hall.
  apply Forall_inv in Hall. exact Hall.
Qed.

Lemma regex_entities_ordered_witness :
  end_position
    (mkPIIEntity (lit "555-123-4567") PHONE float_0_8 0 12 None None)
  <= start_position
       (mkPIIEntity (lit "555-987-6543") PHONE float_0_8 16 28 None None).
Proof.
  apply (regex_entities_ordered (lit "555-123-4567 or 555-987-6543")
           [] [] []).
  - vm_compute. reflexivity.
  - reflexivity.
Defined.

Lemma in_all_ascii (c : ascii) : In c all_ascii.
Proof.
  unfold all_ascii. apply in_map_iff. exists (nat_of_ascii c). split.
  - apply ascii_nat_embedding.
  - apply in_seq. pose proof (nat_ascii_bounded c). lia.
Qed.

Lemma class_within_spec (q p : ascii -> bool) (c : ascii) :
  class_within q p = true -> q c = true -> p c = true.
Proof.
  unfold class_within. rewrite forallb_forall. intros H Hq.
  specialize (H c (in_all_ascii c)). now rewrite Hq in H.
Qed.

Section NoMatch.

Variable s : str.
Variable p : ascii -> bool.
Hypothesis s_without_p : Forall (fun c => p c = false) s.

Lemma repeat_greedy_stuck
    (body : nat -> (nat -> option nat) -> option nat) :
  (forall i k, (forall j, k j = None) -> body i k = None) ->
  forall n lo i k, (forall j, k j = None) ->
    repeat_greedy body lo n i k = None.
Proof.
  intros Hbody. induction n as [|n IH]; intros lo i k Hk; simpl.
  - rewrite Hk. now destruct (lo =? 0)%nat.
  - rewrite Hbody by (intro j; now apply IH).
    rewrite Hk. now destruct (lo =? 0)%nat.
Qed.

(** A match cannot succeed when what follows it cannot. *)
Lemma mtch_stuck (r : regex) :
  forall i k, (forall j, k j = None) -> mtch s r i k = None.
Proof.
  induction r as [| |q|r1 IH1 r2 IH2|lo hi r1 IH1]; intros i k Hk; simpl.
  - apply Hk.
  - rewrite Hk. now destruct (at_boundary s i).
  - rewrite Hk. destruct (nth_error s i); [|reflexivity].
    now destruct (q a).
  - apply IH1. intro j. now apply IH2.
  - now apply repeat_greedy_stuck.
Qed.

Lemma repeat_greedy_no_body
    (body : nat -> (nat -> option nat) -> option nat) :
  (forall i k, body i k = None) ->
  forall n lo i k, (0 < lo)%nat -> repeat_greedy body lo n i k = None.
Proof.
  intros Hbody n lo i k Hlo.
  destruct (Nat.eqb_spec lo 0) as [E|E]; [lia|].
  destruct n; simpl.
  - apply Nat.eqb_neq in E. now rewrite E.
  - rewrite Hbody. apply Nat.eqb_neq in E. now rewrite E.
Qed.

(** An expression that needs a character of [p] matches nowhere in a
    string without such characters. *)
Lemma mtch_needs (r : regex) :
  needs p r = true -> forall i k, mtch s r i k = None.
Proof.
  induction r as [| |q|r1 IH1 r2 IH2|lo hi r1 IH1]; intros Hn i k;
    simpl in Hn; try discriminate; simpl.
  - destruct (nth_error s i) as [c|] eqn:Hc; [|reflexivity].
    destruct (q c) eqn:Hq; [|reflexivity].
    apply (class_within_spec q p c Hn) in Hq.
    rewrite Forall_forall in s_without_p.
    rewrite (s_without_p c) in Hq; [discriminate|].
    eapply nth_error_In. exact Hc.
  - apply orb_true_iff in Hn. destruct Hn as [Hn|Hn].
    + now apply IH1.
    + apply mtch_stuck. intro j. now apply IH2.
  - apply andb_true_iff in Hn. destruct Hn as [Hlo Hn].
    apply repeat_greedy_no_body.
    + intros. now apply IH1.
    + now apply Nat.ltb_lt.
Qed.

Lemma search_needs (r : regex) :
  needs p r = true -> forall fuel i, search s r fuel i = None.
Proof.
  intros Hn. induction fuel as [|f IH]; intro i; simpl.
  - reflexivity.
  - unfold match_at. rewrite mtch_needs by assumption. apply IH.
Qed.

Lemma finditer_needs (r : regex) :
  needs p r = true -> finditer s r = [].
Proof.
  intro Hn. unfold finditer. cbn [finditer_from].
  now rewrite search_needs.
Qed.

End NoMatch.

Lemma patterns_need_digit_or_at :
  Forall (fun pr => needs digit_or_at (snd pr) = true) patterns.
Proof. repeat constructor. Qed.

(** X8. A text without any digit and without an at sign gives no entity:
    every pattern needs one of the two.  This covers the empty text. *)
Theorem regex_needs_digit_or_at (source : str) :
  Forall (fun c => is_digit c = false /\ c <> "@"%char) source ->
  apply_regex_patterns source = [].
Proof.
  intro H.
  assert (Hp : Forall (fun c => digit_or_at c = false) source).
  { eapply Forall_impl; [|exact H]. intros c [Hd Ha]. unfold digit_or_at.
    rewrite Hd. simpl. apply Ascii.eqb_neq. exact Ha. }
  unfold apply_regex_patterns.
  pose proof patterns_need_digit_or_at as Hall.
  induction Hall as [|[t r] ps Hr _ IH]; cbn [flat_map].
  - reflexivity.
  - rewrite (finditer_needs source digit_or_at Hp r Hr). exact IH.
Qed.

Lemma regex_needs_digit_or_at_witness :
  apply_regex_patterns (lit "Call me tomorrow, please.") = [].
Proof.
  apply regex_needs_digit_or_at.
  repeat (constructor; [split; [reflexivity|discriminate]|]).
  constructor.
Defined.

(** X9. No placeholder looks like PII: the pattern extractor finds nothing
    in the placeholder of any entity. *)
Theorem placeholders_not_detected (e : PIIEntity) :
  apply_regex_patterns (placeholder e) = [].
Proof.
  unfold placeholder. destruct (pii_type e); vm_compute; reflexivity.
Qed.

(* ================================================================== *)
(** ** More on the AI extractor *)
(* ================================================================== *)

Lemma convert_items_app (l1 l2 : list json) :
  forall acc,
    convert_items (l1 ++ l2) acc
    = bind (convert_items l1 acc) (convert_items l2).
Proof.
  induction l1 as [|item l1 IH]; intro acc; cbn [app convert_items].
  - reflexivity.
  - destruct (getitem item (lit "pii_type")) as [v|x]; cbn [bind];
      [|reflexivity].
    destruct (PIIType_call v) as [t|[]]; try reflexivity; [|apply IH].
    destruct (getitem item (lit "text")); cbn [bind]; [|reflexivity].
    destruct (getitem item (lit "confidence")); cbn [bind]; [|reflexivity].
    destruct (getitem item (lit "start_position")); cbn [bind];
      [|reflexivity].
    destruct (getitem item (lit "end_position")); cbn [bind]; [|reflexivity].
    apply IH.
Qed.

Lemma convert_items_converts (items : list json)
    (outs : list (option DynEntity)) :
  Forall2 converts items outs ->
  forall acc, convert_items items acc = Returned (acc ++ kept outs).
Proof.
  induction 1 as [|item out items outs Hc _ IH]; intro acc.
  - cbn. now rewrite app_nil_r.
  - destruct Hc as [d t vt vc vs ve H1 H2 H3 H4 H5 | d v H1 H2].
    + rewrite (convert_items_by_value d t vt vc vs ve) by assumption.
      rewrite IH. unfold kept. cbn [flat_map]. now rewrite <- app_assoc.
    + rewrite (convert_items_unknown (JObj d) v)
        by (cbn [getitem]; rewrite ?H1; auto).
      rewrite IH. reflexivity.
Qed.

(** X10. What the AI extractor returns for a reply that decodes to a list
    of dicts, each either complete with the value of a member as its
    ["pii_type"] or with a ["pii_type"] that is no such value: the entities
    of the complete items, in the order of the reply, with the text, the
    confidence and the offsets of the items as they are. *)
Theorem ai_reply_converted (json_loads : str -> option json)
    (ai_content body : str) (items : list json)
    (outs : list (option DynEntity)) :
  strip_code_block ai_content = Returned body ->
  json_loads body = Some (JArr items) ->
  Forall2 converts items outs ->
  detect_pii_with_ai json_loads ai_content = Returned (kept outs).
Proof.
  intros Hb Hj Hc. unfold detect_pii_with_ai.
  rewrite Hb. cbn [bind]. rewrite Hj. cbn [iterate bind].
  now rewrite (convert_items_converts items outs Hc).
Qed.

Lemma ai_reply_converted_witness :
  detect_pii_with_ai sample_json_loads reply_out_of_range
  = Returned
      [mkPIIEntity (JStr (lit "jane@example.com")) EMAIL
         (JFloat (float_of_ratio 95 100)) (JInt 100) (JInt 50) None None].
Proof.
  apply (ai_reply_converted sample_json_loads reply_out_of_range
           reply_out_of_range
           [JObj [(lit "text", JStr (lit "jane@example.com"));
                  (lit "pii_type", JStr (lit "Email Address"));
                  (lit "confidence", JFloat (float_of_ratio 95 100));
                  (lit "start_position", JInt 100);
                  (lit "end_position", JInt 50)]]
           [Some (mkPIIEntity (JStr (lit "jane@example.com")) EMAIL
                    (JFloat (float_of_ratio 95 100)) (JInt 100) (JInt 50)
                    None None)]).
  - vm_compute. reflexivity.
  - vm_compute. reflexivity.
  - constructor; [|constructor].
    apply (converts_entity _ EMAIL); reflexivity.
Defined.

(** X11. A reply that decodes to anything but a list makes the AI
    extractor raise [TypeError], which its [except] clause does not catch;
    the only exceptions are the empty dict and the empty string, which give
    the empty sequence. *)
Theorem ai_reply_not_a_list (json_loads : str -> option json)
    (ai_content body : str) (v : json) :
  strip_code_block ai_content = Returned body ->
  json_loads body = Some v ->
  loop_enters v = false ->
  detect_pii_with_ai json_loads ai_content = Raised TypeError.
Proof.
  intros Hb Hj Hv. unfold detect_pii_with_ai.
  rewrite Hb. cbn [bind]. rewrite Hj.
  destruct v as [| | | |s|l|d]; try discriminate; try reflexivity.
  - destruct s; [discriminate|reflexivity].
  - destruct d as [|[k w] d]; [discriminate|reflexivity].
Qed.

Lemma ai_reply_not_a_list_witness :
  more_json_loads reply_object = Some parsed_object
  /\ detect_pii_with_ai more_json_loads reply_object = Raised TypeError.
Proof.
  split; [vm_compute; reflexivity|].
  apply (ai_reply_not_a_list more_json_loads reply_object reply_object
           parsed_object).
  - vm_compute. reflexivity.
  - vm_compute. reflexivity.
  - reflexivity.
Defined.

Lemma convert_items_incomplete (d : list (str * json)) (rest : list json)
    (acc : list DynEntity) :
  incomplete d -> convert_items (JObj d :: rest) acc = Raised KeyError.
Proof.
  intros [H|[[t Ht] H]]; cbn [convert_items getitem].
  - now rewrite H.
  - rewrite Ht. cbn [bind]. rewrite PIIType_call_value.
    destruct (dict_get d (lit "text")); cbn [bind];
      [|reflexivity].
    destruct (dict_get d (lit "confidence")); cbn [bind];
      [|reflexivity].
    destruct (dict_get d (lit "start_position")); cbn [bind];
      [|reflexivity].
    destruct (dict_get d (lit "end_position")); cbn [bind];
      [|reflexivity].
    destruct H as [H|[H|[H|H]]]; discriminate.
Qed.

(** X12. One incomplete item fails the whole extraction: when the items
    before it are converted or dropped and the item lacks ["pii_type"], or
    has the value of a member there and lacks one of the other four keys,
    the AI extractor raises [KeyError] and the entities found before the
    item are lost. *)
Theorem ai_incomplete_item_raises (json_loads : str -> option json)
    (ai_content body : str) (before_ : list json)
    (outs : list (option DynEntity)) (d : list (str * json))
    (rest : list json) :
  strip_code_block ai_content = Returned body ->
  json_loads body = Some (JArr (before_ ++ JObj d :: rest)) ->
  Forall2 converts before_ outs ->
  incomplete d ->
  detect_pii_with_ai json_loads ai_content = Raised KeyError.
Proof.
  intros Hb Hj Hc Hd. unfold detect_pii_with_ai.
  rewrite Hb. cbn [bind]. rewrite Hj. cbn [iterate bind].
  rewrite convert_items_app, (convert_items_converts before_ outs Hc).
  cbn [bind]. now apply convert_items_incomplete.
Qed.

Lemma ai_incomplete_item_raises_witness :
  detect_pii_with_ai more_json_loads reply_incomplete = Raised KeyError.
Proof.
  apply (ai_incomplete_item_raises more_json_loads reply_incomplete
           reply_incomplete [item_complete]
           [Some (mkPIIEntity (JStr (lit "jane@example.com")) EMAIL
                    (JInt 1) (JInt 14) (JInt 30) None None)]
           dict_incomplete []).
  - vm_compute. reflexivity.
  - vm_compute. reflexivity.
  - constructor; [|constructor].
    apply (converts_entity _ EMAIL); reflexivity.
  - right. split; [exists PHONE; reflexivity|].
    right. left. reflexivity.
Defined.

Lemma startswith_head_differs (c0 c : ascii) (sep' s : str) :
  c <> c0 -> startswith (c0 :: sep') (c :: s) = false.
Proof.
  intro H. cbn [startswith].
  destruct (Ascii.eqb_spec c0 c); [congruence|reflexivity].
Qed.

Lemma startswith_app (sep s : str) : startswith sep (sep ++ s) = true.
Proof.
  induction sep as [|c sep IH]; cbn [app startswith].
  - now destruct s.
  - now rewrite Ascii.eqb_refl, IH.
Qed.

(** Characters other than the first of the separator are read into the
    current part. *)
Lemma split_go_plain (c0 : ascii) (sep' : str) (x : str) :
  Forall (fun c => c <> c0) x ->
  forall cur y,
    split_go (c0 :: sep') O cur (x ++ y)
    = split_go (c0 :: sep') O (rev x ++ cur) y.
Proof.
  induction 1 as [|c x Hc _ IH]; intros cur y.
  - reflexivity.
  - cbn [app]. cbn [split_go].
    rewrite (startswith_head_differs c0 c sep' (x ++ y) Hc).
    rewrite IH. cbn [rev]. now rewrite <- app_assoc.
Qed.

(** The rest of a separator occurrence is passed over. *)
Lemma split_go_skip (sep : str) (x : str) :
  forall cur y,
    split_go sep (List.length x) cur (x ++ y) = split_go sep O cur y.
Proof.
  induction x as [|c x IH]; intros cur y.
  - reflexivity.
  - cbn [app List.length split_go]. apply IH.
Qed.

Lemma split_go_at_sep (c0 : ascii) (sep' : str) (cur y : str) :
  split_go (c0 :: sep') O cur ((c0 :: sep') ++ y)
  = rev cur :: split_go (c0 :: sep') O [] y.
Proof.
  cbn [app]. cbn [split_go].
  change (c0 :: sep' ++ y) with ((c0 :: sep') ++ y).
  rewrite startswith_app. cbn [List.length Nat.pred].
  now rewrite split_go_skip.
Qed.

Lemma split_plain_then_sep (c0 : ascii) (sep' : str) (x y : str) :
  Forall (fun c => c <> c0) x ->
  split (x ++ (c0 :: sep') ++ y) (c0 :: sep')
  = x :: split_go (c0 :: sep') O [] y.
Proof.
  intro H. unfold split.
  rewrite (split_go_plain c0 sep' x H), split_go_at_sep.
  now rewrite app_nil_r, rev_involutive.
Qed.

Lemma split_go_plain_end (c0 : ascii) (sep' : str) (x cur : str) :
  Forall (fun c => c <> c0) x ->
  split_go (c0 :: sep') O cur x = [rev cur ++ x].
Proof.
  intro H. rewrite <- (app_nil_r x) at 1.
  rewrite (split_go_plain c0 sep' x H). cbn [split_go].
  now rewrite rev_app_distr, rev_involutive.
Qed.

Lemma split_plain (c0 : ascii) (sep' : str) (x : str) :
  Forall (fun c => c <> c0) x ->
  split_go (c0 :: sep') O [] x = [x].
Proof.
  intro H. rewrite <- (app_nil_r x) at 1.
  rewrite (split_go_plain c0 sep' x H). cbn [split_go].
  now rewrite app_nil_r, rev_involutive.
Qed.

Lemma contains_app (sep x y : str) :
  contains sep (x ++ sep ++ y) = true.
Proof.
  induction x as [|c x IH]; cbn [app].
  - destruct (sep ++ y) eqn:E; cbn [contains]; rewrite <- E;
      now rewrite startswith_app.
  - cbn [contains]. rewrite IH. apply orb_true_r.
Qed.

Lemma startswith_cons_same (c : ascii) (p s : str) :
  startswith (c :: p) (c :: s) = startswith p s.
Proof. cbn [startswith]. now rewrite Ascii.eqb_refl. Qed.

Lemma startswith_no_backtick (p post : str) :
  no_backtick post -> startswith ("`"%char :: p) post = false.
Proof.
  intros [|c post' Hc _]; [reflexivity|].
  now apply startswith_head_differs.
Qed.

Lemma startswith_json_marker (post : str) :
  startswith ("`"%char :: lit "``json") ("`"%char :: lit "``" ++ post)
  = startswith (lit "json") post.
Proof. reflexivity. Qed.

(** The part that follows the opening marker: up to the next ["```json"],
    which can only be at the closing marker. *)
Lemma part_after_json_marker (body post : str) :
  no_backtick body -> no_backtick post ->
  exists rest,
    split_go (lit "```json") O [] (body ++ lit "```" ++ post)
    = (if startswith (lit "json") post
       then body else body ++ lit "```" ++ post) :: rest.
Proof.
  intros Hb Hp.
  change (lit "```json") with ("`"%char :: lit "``json").
  rewrite (split_go_plain "`" (lit "``json") body Hb). rewrite app_nil_r.
  destruct (startswith (lit "json") post) eqn:Hj.
  - change (lit "```" ++ post) with ("`"%char :: lit "``" ++ post).
    cbn [split_go].
    rewrite startswith_json_marker, Hj.
    rewrite rev_involutive. eauto.
  - assert (H1 : startswith ("`"%char :: lit "``json")
                   (lit "```" ++ post) = false)
      by exact (eq_trans (startswith_json_marker post) Hj).
    assert (H2 : startswith ("`"%char :: lit "``json")
                   (lit "``" ++ post) = false).
    { change (startswith ("`"%char :: "`"%char :: "`"%char :: lit "json")
                ("`"%char :: "`"%char :: post) = false).
      rewrite !startswith_cons_same. now apply startswith_no_backtick. }
    assert (H3 : startswith ("`"%char :: lit "``json")
                   (lit "`" ++ post) = false).
    { change (startswith ("`"%char :: "`"%char :: "`"%char :: lit "json")
                ("`"%char :: post) = false).
      rewrite startswith_cons_same. now apply startswith_no_backtick. }
    change (lit "```" ++ post) with ("`"%char :: lit "``" ++ post) in *.
    cbn [split_go]. rewrite H1.
    change (lit "``" ++ post) with ("`"%char :: lit "`" ++ post) in *.
    cbn [split_go]. rewrite H2.
    change (lit "`" ++ post) with ("`"%char :: post) in *.
    cbn [split_go]. rewrite H3.
    rewrite (split_go_plain_end "`" (lit "``json") post _ Hp).
    eexists. f_equal. cbn [rev]. rewrite rev_involutive.
    now rewrite <- !app_assoc.
Qed.

(** X13. A reply with one [```json] code block and no other backtick is
    stripped to what stands between the markers, whatever comes before
    and after the block. *)
Theorem strip_code_block_fenced (before_ body after_ : str) :
  no_backtick before_ -> no_backtick body -> no_backtick after_ ->
  strip_code_block
    (before_ ++ lit "```json" ++ body ++ lit "```" ++ after_)
  = Returned body.
Proof.
  intros Hpre Hb Hp. unfold strip_code_block.
  rewrite contains_app.
  change (lit "```json") with ("`"%char :: lit "``json") at 1 2.
  rewrite (split_plain_then_sep "`" (lit "``json") before_ _ Hpre).
  destruct (part_after_json_marker body after_ Hb Hp) as [rest Hr].
  change ("`"%char :: lit "``json") with (lit "```json").
  rewrite Hr. cbn [getindex nth_error bind].
  change (lit "```") with ("`"%char :: lit "``").
  destruct (startswith (lit "json") after_).
  - unfold split. now rewrite (split_plain "`" (lit "``") body Hb).
  - now rewrite (split_plain_then_sep "`" (lit "``") body _ Hb).
Qed.

Lemma strip_code_block_fenced_witness :
  strip_code_block (lit "Here is the result: ```json [1, 2] ``` Done.")
  = Returned (lit " [1, 2] ").
Proof.
  apply (strip_code_block_fenced (lit "Here is the result: ")
           (lit " [1, 2] ") (lit " Done."));
    unfold no_backtick;
    repeat (constructor; [discriminate|]); constructor.
Defined.

(* ================================================================== *)
(** ** The [.env] loader *)
(* ================================================================== *)

Lemma lstrip_by_all (p : ascii -> bool) (a m : str) :
  Forall (fun c => p c = true) a -> lstrip_by p (a ++ m) = lstrip_by p m.
Proof.
  induction 1 as [|c a Hc _ IH]; cbn [app lstrip_by].
  - reflexivity.
  - now rewrite Hc.
Qed.

Lemma lstrip_by_starts_outside (p : ascii -> bool) (m : str) :
  starts_outside p m -> lstrip_by p m = m.
Proof. intros [c [m' [-> Hc]]]. cbn [lstrip_by]. now rewrite Hc. Qed.

Lemma rstrip_by_all (p : ascii -> bool) (m b : str) :
  Forall (fun c => p c = true) b -> rstrip_by p (m ++ b) = rstrip_by p m.
Proof.
  intro H. unfold rstrip_by. rewrite rev_app_distr.
  rewrite lstrip_by_all; [reflexivity|]. now apply Forall_rev.
Qed.

Lemma rstrip_by_ends_outside (p : ascii -> bool) (m : str) :
  ends_outside p m -> rstrip_by p m = m.
Proof.
  intros [z [m0 [-> Hz]]]. unfold rstrip_by.
  rewrite rev_app_distr. cbn [rev app lstrip_by]. rewrite Hz.
  cbn [rev]. now rewrite rev_involutive.
Qed.

(** Stripping removes the padding around a string that neither starts nor
    ends with a character to strip. *)
Lemma strip_by_pad (p : ascii -> bool) (a m b : str) :
  Forall (fun c => p c = true) a -> Forall (fun c => p c = true) b ->
  starts_outside p m -> ends_outside p m ->
  strip_by p (a ++ m ++ b) = m.
Proof.
  intros Ha Hb Hs He. unfold strip_by.
  rewrite lstrip_by_all by assumption.
  rewrite lstrip_by_starts_outside.
  - rewrite rstrip_by_all by assumption. now apply rstrip_by_ends_outside.
  - destruct Hs as [c [m' [-> Hc]]]. exists c, (m' ++ b). now split.
Qed.

Lemma strip_by_clean (p : ascii -> bool) (m : str) :
  starts_outside p m -> ends_outside p m -> strip_by p m = m.
Proof.
  intros Hs He.
  rewrite <- (strip_by_pad p [] m [] (Forall_nil _) (Forall_nil _) Hs He)
    at 2.
  cbn [app]. now rewrite app_nil_r.
Qed.

Lemma starts_outside_app (p : ascii -> bool) (x y : str) :
  starts_outside p x -> starts_outside p (x ++ y).
Proof. intros [c [m' [-> Hc]]]. exists c, (m' ++ y). now split. Qed.

Lemma ends_outside_app (p : ascii -> bool) (x y : str) :
  ends_outside p y -> ends_outside p (x ++ y).
Proof.
  intros [z [m0 [-> Hz]]]. exists z, (x ++ m0). split; [|assumption].
  now rewrite app_assoc.
Qed.

Lemma starts_outside_weaken (p q : ascii -> bool) (m : str) :
  (forall c, q c = false -> p c = false) ->
  starts_outside q m -> starts_outside p m.
Proof. intros H [c [m' [-> Hc]]]. exists c, m'. auto. Qed.

Lemma ends_outside_weaken (p q : ascii -> bool) (m : str) :
  (forall c, q c = false -> p c = false) ->
  ends_outside q m -> ends_outside p m.
Proof. intros H [z [m0 [-> Hz]]]. exists z, m0. auto. Qed.

Lemma split_first_app (sep : ascii) (x y : str) :
  ~ In sep x -> split_first sep (x ++ sep :: y) = Some (x, y).
Proof.
  induction x as [|c x IH]; intro H; cbn [app split_first].
  - now rewrite Ascii.eqb_refl.
  - destruct (Ascii.eqb_spec c sep) as [->|_].
    + exfalso. apply H. now left.
    + rewrite IH; [reflexivity|]. intro Hin. apply H. now right.
Qed.

(** X14. A line [NAME=value] is read back as written: with any whitespace
    around the name and around the value, and with the value bare, in
    single quotes or in double quotes, the assignment made is of [v] to
    [k].  The name has no equals sign, no whitespace at its ends and no
    [#] in front; the value does not begin or end with a quote and, when
    bare, has no whitespace at its ends. *)
Theorem dotenv_line_round_trip (ws1 ws2 ws3 ws4 q k v : str) :
  Forall (fun c => is_space c = true) ws1 ->
  Forall (fun c => is_space c = true) ws2 ->
  Forall (fun c => is_space c = true) ws3 ->
  Forall (fun c => is_space c = true) ws4 ->
  q = [] \/ q = ["'"%char] \/ q = [double_quote] ->
  starts_outside (fun c => is_space c || Ascii.eqb "#" c) k ->
  ends_outside is_space k ->
  ~ In "="%char k ->
  starts_outside is_quote v -> ends_outside is_quote v ->
  (q = [] -> starts_outside is_space v /\ ends_outside is_space v) ->
  dotenv_assignment
    (ws1 ++ k ++ ws2 ++ lit "=" ++ ws3 ++ q ++ v ++ q ++ ws4)
  = Some (k, v).
Proof.
  intros H1 H2 H3 H4 Hq Hks Hke Hk Hvs Hve Hbare.
  assert (Hks' : starts_outside is_space k).
  { revert Hks. apply starts_outside_weaken. intros c Hc.
    now apply orb_false_iff in Hc. }
  assert (Hqv : starts_outside is_space (q ++ v ++ q)
                /\ ends_outside is_space (q ++ v ++ q)).
  { destruct Hq as [->|[->| ->]].
    - cbn [app]. rewrite app_nil_r. now apply Hbare.
    - split; [now exists "'"%char, (v ++ ["'"%char])|].
      exists "'"%char, (["'"%char] ++ v). split; [|reflexivity].
      now rewrite <- app_assoc.
    - split; [now exists double_quote, (v ++ [double_quote])|].
      exists double_quote, ([double_quote] ++ v). split; [|reflexivity].
      now rewrite <- app_assoc. }
  destruct Hqv as [Hqs Hqe].
  set (line := k ++ ws2 ++ lit "=" ++ ws3 ++ q ++ v ++ q).
  assert (Hline : strip (ws1 ++ k ++ ws2 ++ lit "=" ++ ws3 ++ q ++ v ++ q
                         ++ ws4) = line).
  { unfold strip.
    replace (ws1 ++ k ++ ws2 ++ lit "=" ++ ws3 ++ q ++ v ++ q ++ ws4)
      with (ws1 ++ line ++ ws4)
      by (unfold line; now rewrite <- !app_assoc).
    apply strip_by_pad; try assumption.
    - now apply starts_outside_app.
    - unfold line. rewrite !app_assoc. rewrite <- (app_assoc _ v q).
      rewrite <- (app_assoc _ q (v ++ q)). now apply ends_outside_app. }
  unfold dotenv_assignment. rewrite Hline.
  destruct Hks as [c [k' [Ek Hc]]]. apply orb_false_iff in Hc.
  destruct Hc as [Hc1 Hc2].
  assert (Hhead : negb (truthy_str line) || startswith (lit "#") line
                  = false).
  { unfold line. rewrite Ek. cbn [app truthy_str negb orb].
    cbn [lit list_ascii_of_string startswith]. rewrite Hc2. reflexivity. }
  rewrite Hhead.
  assert (Hsplit : split_first "=" line
                   = Some (k ++ ws2, ws3 ++ q ++ v ++ q)).
  { unfold line. rewrite app_assoc.
    change (lit "=" ++ ws3 ++ q ++ v ++ q)
      with ("="%char :: ws3 ++ q ++ v ++ q).
    apply split_first_app. intro Hin. apply in_app_or in Hin.
    destruct Hin as [Hin|Hin]; [now apply Hk|].
    rewrite Forall_forall in H2. now specialize (H2 _ Hin). }
  rewrite Hsplit.
  assert (Hsk : strip (k ++ ws2) = k).
  { unfold strip. rewrite <- (app_nil_l (k ++ ws2)).
    apply strip_by_pad; auto. }
  assert (Hsv : strip (ws3 ++ q ++ v ++ q) = q ++ v ++ q).
  { unfold strip.
    rewrite <- (app_nil_r (q ++ v ++ q)) at 1. rewrite <- !app_assoc.
    replace (ws3 ++ q ++ v ++ q ++ []) with (ws3 ++ (q ++ v ++ q) ++ [])
      by (now rewrite <- !app_assoc).
    apply strip_by_pad; auto. }
  rewrite Hsk, Hsv.
  assert (Hv1 : starts_outside (Ascii.eqb "'") v).
  { revert Hvs. apply starts_outside_weaken. unfold is_quote. intros x Hx.
    now apply orb_false_iff in Hx. }
  assert (Hv2 : ends_outside (Ascii.eqb "'") v).
  { revert Hve. apply ends_outside_weaken. unfold is_quote. intros x Hx.
    now apply orb_false_iff in Hx. }
  assert (Hv3 : starts_outside (Ascii.eqb double_quote) v).
  { revert Hvs. apply starts_outside_weaken. unfold is_quote. intros x Hx.
    now apply orb_false_iff in Hx. }
  assert (Hv4 : ends_outside (Ascii.eqb double_quote) v).
  { revert Hve. apply ends_outside_weaken. unfold is_quote. intros x Hx.
    now apply orb_false_iff in Hx. }
  assert (Hstrip : strip_by (Ascii.eqb double_quote)
                     (strip_by (Ascii.eqb "'") (q ++ v ++ q)) = v).
  { destruct Hq as [->|[->| ->]].
    - cbn [app]. rewrite app_nil_r.
      rewrite (strip_by_clean (Ascii.eqb "'") v) by assumption.
      now apply strip_by_clean.
    - rewrite (strip_by_pad (Ascii.eqb "'") ["'"%char] v ["'"%char]);
        try assumption; try (repeat constructor).
      now apply strip_by_clean.
    - rewrite (strip_by_clean (Ascii.eqb "'")).
      + apply strip_by_pad; try assumption; repeat constructor.
      + now exists double_quote, (v ++ [double_quote]).
      + exists double_quote, ([double_quote] ++ v). split; [|reflexivity].
        now rewrite <- app_assoc. }
  rewrite Hstrip, Ek.
  destruct Hvs as [c' [v' [-> _]]]. reflexivity.
Qed.

Lemma dotenv_line_round_trip_witness :
  dotenv_assignment (lit "  AZURE_OPENAI_KEY = 'abc=123'  ")
  = Some (lit "AZURE_OPENAI_KEY", lit "abc=123").
Proof.
  apply (dotenv_line_round_trip (lit "  ") (lit " ") (lit " ") (lit "  ")
           (lit "'") (lit "AZURE_OPENAI_KEY") (lit "abc=123")).
  - repeat constructor.
  - repeat constructor.
  - repeat constructor.
  - repeat constructor.
  - right. left. reflexivity.
  - now exists "A"%char, (lit "ZURE_OPENAI_KEY").
  - now exists "Y"%char, (lit "AZURE_OPENAI_KE").
  - cbn. intuition discriminate.
  - now exists "a"%char, (lit "bc=123").
  - now exists "3"%char, (lit "abc=12").
  - discriminate.
Defined.

Lemma lstrip_by_result (p : ascii -> bool) (s : str) :
  lstrip_by p s = [] \/ starts_outside p (lstrip_by p s).
Proof.
  induction s as [|c s IH]; cbn [lstrip_by].
  - now left.
  - destruct (p c) eqn:Hc; [assumption|]. right. now exists c, s.
Qed.

Lemma lstrip_by_snoc_outside (p : ascii -> bool) (x : str) (z : ascii) :
  p z = false -> lstrip_by p (x ++ [z]) = lstrip_by p x ++ [z].
Proof.
  intro Hz. induction x as [|c x IH]; cbn [app lstrip_by].
  - now rewrite Hz.
  - destruct (p c); [assumption|reflexivity].
Qed.

Lemma rstrip_by_cons_outside (p : ascii -> bool) (c : ascii) (s : str) :
  p c = false -> rstrip_by p (c :: s) = c :: rstrip_by p s.
Proof.
  intro Hc. unfold rstrip_by. cbn [rev].
  rewrite lstrip_by_snoc_outside by assumption.
  rewrite rev_app_distr. reflexivity.
Qed.

Lemma rstrip_by_result (p : ascii -> bool) (s : str) :
  rstrip_by p s = [] \/ ends_outside p (rstrip_by p s).
Proof.
  unfold rstrip_by.
  destruct (lstrip_by_result p (rev s)) as [->|[c [m [-> Hc]]]].
  - now left.
  - right. exists c, (rev m). now split.
Qed.

Lemma lstrip_by_incl (p : ascii -> bool) (s : str) (c : ascii) :
  In c (lstrip_by p s) -> In c s.
Proof.
  induction s as [|x s IH]; cbn [lstrip_by]; [auto|].
  destruct (p x); [|auto]. intro H. right. now apply IH.
Qed.

Lemma strip_by_incl (p : ascii -> bool) (s : str) (c : ascii) :
  In c (strip_by p s) -> In c s.
Proof.
  unfold strip_by, rstrip_by. intro H.
  apply in_rev in H. apply lstrip_by_incl in H. apply in_rev in H.
  now apply lstrip_by_incl in H.
Qed.

Lemma split_first_spec (sep : ascii) (s a b : str) :
  split_first sep s = Some (a, b) -> s = a ++ sep :: b /\ ~ In sep a.
Proof.
  revert a. induction s as [|c s IH]; intros a H; cbn [split_first] in H.
  - discriminate.
  - destruct (Ascii.eqb_spec c sep) as [->|Hc].
    + injection H as <- <-. split; [reflexivity|intros []].
    + destruct (split_first sep s) as [[a' b']|]; [|discriminate].
      injection H as <- <-. destruct (IH a' eq_refl) as [-> Hn].
      split; [reflexivity|]. intros [E|Hin]; [congruence|auto].
Qed.

Lemma truthy_str_nonempty (s : str) : truthy_str s = true -> s <> [].
Proof. destruct s; [discriminate|congruence]. Qed.

(** The parts of an assignment: what the loop has after the tests. *)
Lemma dotenv_assignment_inv (raw k v : str) :
  dotenv_assignment raw = Some (k, v) ->
  exists a b,
    strip raw = a ++ "="%char :: b /\ ~ In "="%char a
    /\ startswith (lit "#") (strip raw) = false
    /\ k = strip a /\ k <> []
    /\ v = strip_by (Ascii.eqb double_quote)
             (strip_by (Ascii.eqb "'") (strip b))
    /\ v <> [].
Proof.
  unfold dotenv_assignment. intro H.
  destruct (negb (truthy_str (strip raw))
            || startswith (lit "#") (strip raw)) eqn:Hhead; [discriminate|].
  apply orb_false_iff in Hhead. destruct Hhead as [_ Hhash].
  destruct (split_first "=" (strip raw)) as [[a b]|] eqn:Hs; [|discriminate].
  apply split_first_spec in Hs. destruct Hs as [Hs Hn].
  destruct (truthy_str (strip a)
            && truthy_str (strip_by (Ascii.eqb double_quote)
                             (strip_by (Ascii.eqb "'") (strip b)))) eqn:Ht;
    [|discriminate].
  apply andb_true_iff in Ht. destruct Ht as [Ht1 Ht2].
  injection H as <- <-. exists a, b.
  repeat split; auto using truthy_str_nonempty.
Qed.

Lemma dotenv_assignment_incl (raw k v : str) :
  dotenv_assignment raw = Some (k, v) ->
  forall c, In c k \/ In c v -> In c raw.
Proof.
  intro H. apply dotenv_assignment_inv in H.
  destruct H as [a [b [Hs [_ [_ [Hk [_ [Hv _]]]]]]]].
  intros x [Hin|Hin].
  - rewrite Hk in Hin. apply strip_by_incl in Hin.
    apply (strip_by_incl is_space raw). fold (strip raw). rewrite Hs.
    apply in_or_app. now left.
  - rewrite Hv in Hin. do 3 apply strip_by_incl in Hin.
    apply (strip_by_incl is_space raw). fold (strip raw). rewrite Hs.
    apply in_or_app. right. now right.
Qed.

(** X15. What the loader never assigns: the name of an assignment is not
    empty, has no equals sign, no whitespace at its ends and no [#] in
    front; the value is not empty (a line [NAME=] sets nothing) and does not
    begin with a double quote; both are made of characters of the line. *)
Theorem dotenv_assignment_shape (raw k v : str) :
  dotenv_assignment raw = Some (k, v) ->
  k <> [] /\ v <> []
  /\ ~ In "="%char k
  /\ starts_outside (fun c => is_space c || Ascii.eqb "#" c) k
  /\ ends_outside is_space k
  /\ starts_outside (Ascii.eqb double_quote) v
  /\ (forall c, In c k \/ In c v -> In c raw).
Proof.
  intro H. pose proof (dotenv_assignment_incl raw k v H) as Hincl.
  apply dotenv_assignment_inv in H.
  destruct H as [a [b [Hs [Hn [Hhash [Hk [Hk0 [Hv Hv0]]]]]]]].
  assert (Hline : starts_outside is_space (strip raw)).
  { unfold strip, strip_by in *.
    destruct (lstrip_by_result is_space raw) as [E|[c [m [E Hc]]]].
    - rewrite E in Hs. destruct a; discriminate.
    - rewrite E in *. rewrite rstrip_by_cons_outside by assumption.
      now exists c, (rstrip_by is_space m). }
  destruct Hline as [c [m [E Hc]]].
  assert (Ha : exists a', a = c :: a').
  { rewrite E in Hs. destruct a as [|x a'].
    - exfalso. apply Hk0. now rewrite Hk.
    - injection Hs as -> _. eauto. }
  destruct Ha as [a' ->].
  assert (Ek : k = c :: rstrip_by is_space a').
  { rewrite Hk. unfold strip, strip_by. cbn [lstrip_by]. rewrite Hc.
    now apply rstrip_by_cons_outside. }
  split; [assumption|]. split; [assumption|].
  split; [|split; [|split; [|split; [|exact Hincl]]]].
  - rewrite Hk. intro Hin. apply strip_by_incl in Hin. now apply Hn.
  - exists c, (rstrip_by is_space a'). split; [assumption|].
    rewrite Hc. cbn [orb]. rewrite E in Hhash.
    cbn [lit list_ascii_of_string startswith] in Hhash.
    now rewrite andb_true_r in Hhash.
  - destruct (rstrip_by_result is_space (lstrip_by is_space (c :: a')))
      as [E0|He].
    + exfalso. apply Hk0. rewrite Hk. exact E0.
    + rewrite Hk. exact He.
  - rewrite Hv. unfold strip_by at 1.
    destruct (lstrip_by_result (Ascii.eqb double_quote)
                (strip_by (Ascii.eqb "'") (strip b)))
      as [E0|[x [y [E0 Hx]]]].
    + exfalso. apply Hv0. rewrite Hv. unfold strip_by at 1.
      now rewrite E0.
    + rewrite E0, rstrip_by_cons_outside by assumption.
      now exists x, (rstrip_by (Ascii.eqb double_quote) y).
Qed.

Lemma dotenv_assignment_shape_witness :
  ~ In "="%char (lit "KEY") /\ lit "a=b" <> [].
Proof.
  pose proof (dotenv_assignment_shape (lit "  KEY = 'a=b'  ") (lit "KEY")
                (lit "a=b") eq_refl) as H.
  split; [exact (proj1 (proj2 (proj2 H)))|exact (proj1 (proj2 H))].
Defined.












(* ================================================================== *)
(** ** Waiting for the analysis *)
(* ================================================================== *)

Lemma poll_loop_requests (poll : nat -> poll_reply) :
  forall n i, (i <= snd (poll_loop poll n i) <= i + n)%nat.
Proof.
  induction n as [|n IH]; intro i; cbn [poll_loop].
  - cbn [snd]. lia.
  - destruct (poll i) as [| | |result]; cbn [snd]; try lia.
    destruct (status_of result) as [status|]; cbn [snd]; [|lia].
    destruct (str_eqb status (lit "succeeded")); cbn [snd]; [lia|].
    destruct (str_eqb status (lit "failed")); cbn [snd]; [lia|].
    specialize (IH (S i)). lia.
Qed.

Lemma str_eqb_neq (a b : str) : a <> b -> str_eqb a b = false.
Proof.
  intro H. destruct (str_eqb a b) eqn:E; [|reflexivity].
  apply str_eqb_eq in E. contradiction.
Qed.

Lemma poll_loop_pending (poll : nat -> poll_reply) (n i : nat) :
  pending (poll i) -> poll_loop poll (S n) i = poll_loop poll n (S i).
Proof.
  intros [result [status [Hr [Hs [H1 H2]]]]]. cbn [poll_loop].
  rewrite Hr, Hs, (str_eqb_neq _ _ H1), (str_eqb_neq _ _ H2). reflexivity.
Qed.

Lemma poll_loop_skip (poll : nat -> poll_reply) (m : nat) :
  forall n i,
    (forall j, (i <= j < i + m)%nat -> pending (poll j)) ->
    poll_loop poll (m + n) i = poll_loop poll n (i + m).
Proof.
  induction m as [|m IH]; intros n i H.
  - now rewrite Nat.add_0_r.
  - cbn [Nat.add]. rewrite poll_loop_pending by (apply H; lia).
    rewrite IH by (intros j Hj; apply H; lia).
    f_equal. lia.
Qed.

(** X17. The number of requests is bounded: whatever the service answers,
    [analyze_document] asks for the result 30 times at most. *)
Theorem analyze_document_requests (submit : submit_reply)
    (poll : nat -> poll_reply) :
  (snd (analyze_document submit poll) <= 30)%nat.
Proof.
  unfold analyze_document. destruct submit as [| |[[|c loc]|]]; cbn [snd];
    try lia.
  pose proof (poll_loop_requests poll 30 0). lia.
Qed.

(** X18. The first reply that is not pending decides: when the replies
    before request number [k < 30] are pending and reply [k] has the status
    ["succeeded"], in any letter case, its body is returned after [k + 1]
    requests; when it has the status ["failed"], the failure is raised
    after [k + 1] requests. *)
Theorem analyze_document_first_decides (loc : str)
    (poll : nat -> poll_reply) (k : nat) (result : json) (status : str) :
  loc <> [] ->
  (k < 30)%nat ->
  (forall j, (j < k)%nat -> pending (poll j)) ->
  poll k = PollJSON result ->
  status_of result = Some status ->
  (status = lit "succeeded" ->
   analyze_document (Submitted (Some loc)) poll = (inl result, S k))
  /\ (status = lit "failed" ->
      analyze_document (Submitted (Some loc)) poll
      = (inr (AnalysisFailed result), S k)).
Proof.
  intros Hloc Hk Hp Hr Hs.
  assert (E : analyze_document (Submitted (Some loc)) poll
              = poll_loop poll (S (29 - k)) k).
  { unfold analyze_document. destruct loc; [congruence|].
    replace 30%nat with (k + S (29 - k))%nat by lia.
    rewrite poll_loop_skip by (intros j Hj; apply Hp; lia).
    reflexivity. }
  rewrite E. cbn [poll_loop]. rewrite Hr, Hs.
  split; intros ->; reflexivity.
Qed.

Lemma analyze_document_first_decides_witness :
  analyze_document (Submitted (Some (lit "https://example/op")))
    (fun i => if (i <? 2)%nat
              then PollJSON (JObj [(lit "status", JStr (lit "running"))])
              else PollJSON (JObj [(lit "status", JStr (lit "Succeeded"))]))
  = (inl (JObj [(lit "status", JStr (lit "Succeeded"))]), 3%nat).
Proof.
  apply (analyze_document_first_decides (lit "https://example/op") _ 2
           (JObj [(lit "status", JStr (lit "Succeeded"))])
           (lit "succeeded")).
  - discriminate.
  - lia.
  - intros j Hj. exists (JObj [(lit "status", JStr (lit "running"))]),
      (lit "running").
    destruct j as [|[|j]]; [| |lia];
      (split; [reflexivity|split; [reflexivity|split; discriminate]]).
  - reflexivity.
  - reflexivity.
  - reflexivity.
Defined.

(** X19. When the 30 replies are all pending, [analyze_document] gives up
    with its timeout error after exactly 30 requests. *)
Theorem analyze_document_timeout (loc : str) (poll : nat -> poll_reply) :
  loc <> [] ->
  (forall j, (j < 30)%nat -> pending (poll j)) ->
  analyze_document (Submitted (Some loc)) poll = (inr PollingTimeout, 30%nat).
Proof.
  intros Hloc Hp. unfold analyze_document. destruct loc; [congruence|].
  change 30%nat with (30 + 0)%nat at 1.
  rewrite poll_loop_skip by (intros j Hj; apply Hp; lia).
  reflexivity.
Qed.

Lemma analyze_document_timeout_witness :
  analyze_document (Submitted (Some (lit "https://example/op")))
    (fun _ => PollJSON (JObj [(lit "status", JStr (lit "canceled"))]))
  = (inr PollingTimeout, 30%nat).
Proof.
  apply analyze_document_timeout.
  - discriminate.
  - intros j _. exists (JObj [(lit "status", JStr (lit "canceled"))]),
      (lit "canceled").
    split; [reflexivity|split; [reflexivity|split; discriminate]].
Defined.

(* ================================================================== *)
(** ** The text of an analysed document *)
(* ================================================================== *)

Lemma contents_ok (xs : list json) (cs : list str) :
  Forall2 has_content xs cs -> contents xs = inl (map JStr cs).
Proof.
  induction 1 as [|x c xs cs [d [-> Hd]] _ IH]; cbn [contents map].
  - reflexivity.
  - cbn [get and_then]. rewrite Hd, IH. reflexivity.
Qed.

Lemma strings_ok (cs : list str) : strings (map JStr cs) = inl cs.
Proof.
  induction cs as [|c cs IH]; cbn [map strings]; [reflexivity|].
  now rewrite IH.
Qed.

Lemma joined_contents_ok (xs : list json) (cs : list str) :
  Forall2 has_content xs cs ->
  joined_contents (JArr xs) = inl (join [ascii_of_nat 10] cs).
Proof.
  intro H. unfold joined_contents, iterate_result. cbn [iterate and_then].
  rewrite (contents_ok xs cs H). cbn [and_then].
  rewrite strings_ok. reflexivity.
Qed.

(** X20. Paragraphs come first: when the analysis has a non-empty list of
    paragraphs, the text is their contents joined by line feeds and
    stripped, whatever the pages hold. *)
Theorem extract_text_from_paragraphs (d ar : list (str * json))
    (ps : list json) (cs : list str) :
  dict_get d (lit "analyzeResult") = Some (JObj ar) ->
  dict_get ar (lit "paragraphs") = Some (JArr ps) ->
  ps <> [] ->
  Forall2 has_content ps cs ->
  extract_text_content (JObj d) = inl (strip (join [ascii_of_nat 10] cs)).
Proof.
  intros Hd Har Hps Hc. unfold extract_text_content.
  cbn [get and_then]. rewrite Hd. cbn [get and_then]. rewrite Har.
  destruct ps as [|p ps]; [congruence|]. cbn [truthy].
  rewrite (joined_contents_ok _ _ Hc). reflexivity.
Qed.

Lemma extract_text_from_paragraphs_witness :
  extract_text_content
    (JObj [(lit "status", JStr (lit "succeeded"));
           (lit "analyzeResult",
            JObj [(lit "pages", JInt 7);
                  (lit "paragraphs",
                   JArr [JObj [(lit "content", JStr (lit " Invoice"))];
                         JObj [(lit "content", JStr (lit "Total: 5 "))]])])])
  = inl (strip (join [ascii_of_nat 10] [lit " Invoice"; lit "Total: 5 "])).
Proof.
  apply (extract_text_from_paragraphs _
           [(lit "pages", JInt 7);
            (lit "paragraphs",
             JArr [JObj [(lit "content", JStr (lit " Invoice"))];
                   JObj [(lit "content", JStr (lit "Total: 5 "))]])]
           [JObj [(lit "content", JStr (lit " Invoice"))];
            JObj [(lit "content", JStr (lit "Total: 5 "))]]).
  - reflexivity.
  - reflexivity.
  - discriminate.
  - constructor; [eexists; split; reflexivity|].
    constructor; [eexists; split; reflexivity|constructor].
Defined.

Lemma pages_text_ok (pages : list json) (lss : list (list str)) :
  Forall2 has_lines pages lss ->
  forall text_content,
    pages_text pages text_content
    = inl (text_content
           ++ List.concat
                (map (fun ls => join [ascii_of_nat 10] ls ++ [ascii_of_nat 10])
                   lss)).
Proof.
  induction 1 as [|page ls pages lss [d [xs [-> [Hd Hx]]]] _ IH];
    intro text_content; cbn [pages_text map List.concat].
  - now rewrite app_nil_r.
  - cbn [get and_then]. rewrite Hd, (joined_contents_ok xs ls Hx).
    cbn [and_then]. rewrite IH. now rewrite <- !app_assoc.
Qed.

(** X21. Without paragraphs the text comes from the pages: the contents of
    the lines of each page joined by line feeds, a line feed after each
    page, the whole stripped. *)
Theorem extract_text_from_pages (d ar : list (str * json))
    (pages : list json) (lss : list (list str)) :
  dict_get d (lit "analyzeResult") = Some (JObj ar) ->
  dict_get ar (lit "paragraphs") = None
  \/ dict_get ar (lit "paragraphs") = Some (JArr []) ->
  dict_get ar (lit "pages") = Some (JArr pages) ->
  Forall2 has_lines pages lss ->
  extract_text_content (JObj d)
  = inl (strip
           (List.concat
              (map (fun ls => join [ascii_of_nat 10] ls ++ [ascii_of_nat 10])
                 lss))).
Proof.
  intros Hd Hpar Hpages Hl. unfold extract_text_content.
  cbn [get and_then]. rewrite Hd. cbn [get and_then].
  assert (E : truthy (match dict_get ar (lit "paragraphs") with
                      | Some x => x
                      | None => JArr []
                      end) = false)
    by (destruct Hpar as [-> | ->]; reflexivity).
  rewrite E, Hpages. unfold iterate_result. cbn [iterate and_then].
  rewrite (pages_text_ok pages lss Hl). reflexivity.
Qed.

Lemma extract_text_from_pages_witness :
  extract_text_content
    (JObj [(lit "analyzeResult",
            JObj [(lit "pages",
                   JArr [JObj [(lit "lines",
                                JArr [JObj [(lit "content",
                                             JStr (lit "Invoice"))];
                                      JObj [(lit "content",
                                             JStr (lit "Total: 5"))]])];
                         JObj [(lit "lines",
                                JArr [JObj [(lit "content",
                                             JStr (lit "Page 2"))]])]])])])
  = inl (lit "Invoice" ++ [ascii_of_nat 10] ++ lit "Total: 5"
         ++ [ascii_of_nat 10] ++ lit "Page 2").
Proof.
  rewrite (extract_text_from_pages _
             [(lit "pages",
               JArr [JObj [(lit "lines",
                            JArr [JObj [(lit "content", JStr (lit "Invoice"))];
                                  JObj [(lit "content",
                                         JStr (lit "Total: 5"))]])];
                     JObj [(lit "lines",
                            JArr [JObj [(lit "content",
                                         JStr (lit "Page 2"))]])]])]
             [JObj [(lit "lines",
                     JArr [JObj [(lit "content", JStr (lit "Invoice"))];
                           JObj [(lit "content", JStr (lit "Total: 5"))]])];
              JObj [(lit "lines",
                     JArr [JObj [(lit "content", JStr (lit "Page 2"))]])]]
             [[lit "Invoice"; lit "Total: 5"]; [lit "Page 2"]]).
  - reflexivity.
  - reflexivity.
  - left. reflexivity.
  - reflexivity.
  - constructor.
    + eexists. eexists. split; [reflexivity|]. split; [reflexivity|].
      constructor; [eexists; split; reflexivity|].
      constructor; [eexists; split; reflexivity|constructor].
    + constructor; [|constructor].
      eexists. eexists. split; [reflexivity|]. split; [reflexivity|].
      constructor; [eexists; split; reflexivity|constructor].
Defined.

Lemma strip_by_result (p : ascii -> bool) (s : str) :
  strip_by p s = []
  \/ (starts_outside p (strip_by p s) /\ ends_outside p (strip_by p s)).
Proof.
  unfold strip_by.
  destruct (lstrip_by_result p s) as [->|[c [m [-> Hc]]]].
  - now left.
  - right. split.
    + rewrite rstrip_by_cons_outside by assumption.
      now exists c, (rstrip_by p m).
    + destruct (rstrip_by_result p (c :: m)) as [E|He]; [|assumption].
      rewrite rstrip_by_cons_outside in E by assumption. discriminate.
Qed.

Lemma extract_text_content_stripped (analysis_result : json) (t : str) :
  extract_text_content analysis_result = inl t -> exists x, t = strip x.
Proof.
  unfold extract_text_content. intro H.
  destruct (get analysis_result (lit "analyzeResult") (JObj []))
    as [ar|]; cbn [and_then] in H; [|discriminate].
  destruct (get ar (lit "paragraphs") (JArr [])) as [ps|];
    cbn [and_then] in H; [|discriminate].
  match type of H with
  | and_then ?m _ = _ => destruct m as [x|]
  end; cbn [and_then] in H; [|discriminate].
  injection H as <-. now exists x.
Qed.

(** X22. Whenever [extract_text_content] returns, the text has no
    whitespace at its ends: it is empty, or its first and its last
    character are not whitespace. *)
Theorem extract_text_content_trimmed (analysis_result : json) (t : str) :
  extract_text_content analysis_result = inl t ->
  t = [] \/ (starts_outside is_space t /\ ends_outside is_space t).
Proof.
  intro H. apply extract_text_content_stripped in H. destruct H as [x ->].
  apply strip_by_result.
Qed.

Lemma extract_text_content_trimmed_witness :
  lit "Invoice" = []
  \/ (starts_outside is_space (lit "Invoice")
      /\ ends_outside is_space (lit "Invoice")).
Proof.
  apply (extract_text_content_trimmed
           (JObj [(lit "analyzeResult",
                   JObj [(lit "paragraphs",
                          JArr [JObj [(lit "content",
                                       JStr (lit "  Invoice "))]])])])).
  reflexivity.
Defined.

(* ================================================================== *)
(** ** The names of the files written *)
(* ================================================================== *)

Lemma rfind_from_app (c : ascii) (a b : str) :
  forall i last,
    rfind_from c (a ++ b) i last
    = rfind_from c b (i + len a) (rfind_from c a i last).
Proof.
  induction a as [|x a IH]; intros i last; cbn [app rfind_from].
  - unfold len. cbn. now rewrite Z.add_0_r.
  - rewrite IH. f_equal. unfold len. cbn [List.length]. lia.
Qed.

Lemma rfind_from_absent (c : ascii) (s : str) :
  ~ In c s -> forall i last, rfind_from c s i last = last.
Proof.
  induction s as [|x s IH]; intros H i last; cbn [rfind_from].
  - reflexivity.
  - destruct (Ascii.eqb_spec x c) as [->|_].
    + exfalso. apply H. now left.
    + apply IH. intro Hin. apply H. now right.
Qed.

(** The index after the last slash of a path made of a directory prefix
    and a name without slashes. *)
Lemma rfind_slash (pre rest : str) :
  dir_prefix pre -> ~ In "/"%char rest ->
  rfind (pre ++ rest) "/" + 1 = len pre.
Proof.
  intros [->|[d ->]] Hr; unfold rfind.
  - cbn [app]. rewrite rfind_from_absent by assumption. reflexivity.
  - rewrite <- app_assoc, rfind_from_app. cbn [app rfind_from].
    rewrite Ascii.eqb_refl, rfind_from_absent by assumption.
    rewrite len_app. unfold len. cbn [List.length]. lia.
Qed.

Lemma slice_from_app (a b : str) : slice_from (a ++ b) (len a) = b.
Proof.
  unfold slice_from.
  rewrite slice_index_in_range by (rewrite len_app; unfold len; lia).
  unfold len. rewrite Nat2Z.id. rewrite skipn_app, skipn_all, Nat.sub_diag.
  reflexivity.
Qed.

Lemma slice_to_app (a b : str) : slice_to (a ++ b) (len a) = a.
Proof.
  unfold slice_to.
  rewrite slice_index_in_range by (rewrite len_app; unfold len; lia).
  unfold len. rewrite Nat2Z.id. rewrite firstn_app, firstn_all, Nat.sub_diag.
  cbn [firstn]. now rewrite app_nil_r.
Qed.

Lemma basename_spec (pre rest : str) :
  dir_prefix pre -> ~ In "/"%char rest -> basename (pre ++ rest) = rest.
Proof.
  intros Hp Hr. unfold basename. rewrite (rfind_slash pre rest Hp Hr).
  apply slice_from_app.
Qed.

Lemma splitext_spec (stem ext : str) :
  ~ In "/"%char stem -> ~ In "/"%char ext -> ~ In "."%char ext ->
  existsb (fun c => negb (Ascii.eqb c ".")) stem = true ->
  splitext (stem ++ "."%char :: ext) = (stem, "."%char :: ext).
Proof.
  intros Hs He Hd Hx. unfold splitext.
  assert (Hsep : rfind (stem ++ "."%char :: ext) "/" = -1).
  { unfold rfind. apply rfind_from_absent. intro Hin.
    apply in_app_or in Hin. destruct Hin as [Hin|[E|Hin]]; auto.
    discriminate. }
  assert (Hdot : rfind (stem ++ "."%char :: ext) "." = len stem).
  { unfold rfind. rewrite rfind_from_app. cbn [rfind_from].
    rewrite Ascii.eqb_refl. now rewrite rfind_from_absent. }
  rewrite Hsep, Hdot.
  assert (Hlen : 0 <= len stem) by (unfold len; lia).
  destruct (Z.gtb_spec (len stem) (-1)); [|lia]. cbn [andb].
  replace (slice (stem ++ "."%char :: ext) (-1 + 1) (len stem)) with stem.
  - rewrite Hx. now rewrite slice_to_app, slice_from_app.
  - change (-1 + 1) with 0. now rewrite slice_0, slice_to_app.
Qed.

(** X23. When no output file is given, the names of the two files written
    depend on the input path only through its last component without the
    extension: documents of the same name in different directories, or
    with different extensions, are written to the same redacted file and
    the same report.  (POSIX paths; [stem] has a character that is no
    dot.) *)
Theorem output_files_by_stem (pre stem ext : str) :
  dir_prefix pre ->
  ~ In "/"%char stem -> ~ In "/"%char ext -> ~ In "."%char ext ->
  existsb (fun c => negb (Ascii.eqb c ".")) stem = true ->
  output_files (pre ++ stem ++ "."%char :: ext) None
  = (lit "../redacted_text/" ++ stem ++ lit "_redacted.txt",
     lit "../reports/" ++ stem ++ lit "_pii_report.json").
Proof.
  intros Hp Hs He Hd Hx. unfold output_files.
  assert (Hb : basename (pre ++ stem ++ "."%char :: ext)
               = stem ++ "."%char :: ext).
  { apply basename_spec; [assumption|]. intro Hin.
    apply in_app_or in Hin. destruct Hin as [Hin|[E|Hin]]; auto.
    discriminate. }
  rewrite Hb, (splitext_spec stem ext Hs He Hd Hx). cbn [fst].
  destruct (existsb (endswith (lower (pre ++ stem ++ "."%char :: ext))) _);
    reflexivity.
Qed.

Lemma output_files_by_stem_witness :
  output_files (lit "../data/images/receipt.png") None
  = output_files (lit "scans/receipt.pdf") None.
Proof.
  assert (A : output_files (lit "../data/images/receipt.png") None
              = (lit "../redacted_text/receipt_redacted.txt",
                 lit "../reports/receipt_pii_report.json")).
  { apply (output_files_by_stem (lit "../data/images/") (lit "receipt")
             (lit "png")).
    - right. now exists (lit "../data/images").
    - cbn. intuition discriminate.
    - cbn. intuition discriminate.
    - cbn. intuition discriminate.
    - reflexivity. }
  assert (B : output_files (lit "scans/receipt.pdf") None
              = (lit "../redacted_text/receipt_redacted.txt",
                 lit "../reports/receipt_pii_report.json")).
  { apply (output_files_by_stem (lit "scans/") (lit "receipt") (lit "pdf")).
    - right. now exists (lit "scans").
    - cbn. intuition discriminate.
    - cbn. intuition discriminate.
    - cbn. intuition discriminate.
    - reflexivity. }
  exact (eq_trans A (eq_sym B)).
Defined.

(* ================================================================== *)
(** ** The stages together *)
(* ================================================================== *)

Lemma fold_dedup_extends (l : list PIIEntity) :
  forall unique,
    exists r, fold_left dedup_step l unique = unique ++ r
              /\ subsequence r l.
Proof.
  induction l as [|e l IH]; intro unique; cbn [fold_left].
  - exists []. split; [now rewrite app_nil_r|constructor].
  - destruct (IH (dedup_step unique e)) as [r [Hr Hs]].
    unfold dedup_step in *. destruct (is_duplicate unique e).
    + exists r. split; [assumption|now apply subsequence_skip].
    + exists (e :: r). split.
      * rewrite Hr, <- app_assoc. reflexivity.
      * now apply subsequence_keep.
Qed.

(** X24. The results of the AI extractor come first and stay: the merged
    sequence starts with the deduplicated AI entities, followed by some of
    the pattern entities in their order; no pattern entity takes the place
    of an AI entity. *)
Theorem merge_keeps_ai_entities (ai_entities regex_entities : list PIIEntity) :
  exists r,
    merge_entities ai_entities regex_entities = deduplicate ai_entities ++ r
    /\ subsequence r regex_entities.
Proof.
  unfold merge_entities, deduplicate. rewrite fold_left_app.
  apply fold_dedup_extends.
Qed.

Lemma apply_regex_patterns_valid (source : str) (e : PIIEntity) :
  In e (apply_regex_patterns source) -> offsets_valid source e.
Proof.
  unfold apply_regex_patterns. intro H.
  apply in_flat_map in H. destruct H as [[t r] [Hp H]].
  apply in_map_iff in H. destruct H as [[st en] [<- Hm]].
  assert (Hc : consumes r = true).
  { pose proof patterns_consume as Hall. rewrite Forall_forall in Hall.
    exact (Hall _ Hp). }
  apply (finditer_from_span source r Hc) in Hm.
  unfold offsets_valid, len.
  cbn [entity_of_match start_position end_position fst snd]. lia.
Qed.

Lemma insert_by_start_last (x : PIIEntity) (l : list PIIEntity) :
  Forall (fun y => start_position x < start_position y) l ->
  insert_by_start x l = l ++ [x].
Proof.
  induction 1 as [|y l Hy _ IH]; cbn [insert_by_start app].
  - reflexivity.
  - destruct (Z.gtb_spec (start_position y) (start_position x)); [|lia].
    now rewrite IH.
Qed.

(** Spans that follow one another are taken from the last to the
    first. *)
Lemma sorted_by_start_desc_ascending (source : str) (l : list PIIEntity) :
  Forall (offsets_valid source) l ->
  StronglySorted before l ->
  sorted_by_start_desc l = rev l.
Proof.
  intros Hv Hs. induction Hs as [|x l Hs IH Hx]; cbn [sorted_by_start_desc
                                                     fold_right rev].
  - reflexivity.
  - inversion Hv as [|? ? Hvx Hvl]; subst.
    fold (sorted_by_start_desc l). rewrite (IH Hvl).
    apply insert_by_start_last. apply Forall_rev.
    rewrite Forall_forall in *. intros y Hin.
    specialize (Hx y Hin). unfold before, offsets_valid in *. lia.
Qed.

(** X25. Extractor and redactor together, for one category: redacting the
    entities the pattern extractor finds for a category replaces each of
    the matched spans by the placeholder, from left to right, and leaves
    the rest of the text as it is. *)
Theorem redact_one_category (source : str) (t : PIIType) :
  create_redacted_text source
    (filter (fun e : PIIEntity => PIIType_eqb (pii_type e) t)
       (apply_regex_patterns source))
  = interleave source 0
      (filter (fun e : PIIEntity => PIIType_eqb (pii_type e) t)
         (apply_regex_patterns source))
      (len source).
Proof.
  set (es := filter (fun e : PIIEntity => PIIType_eqb (pii_type e) t)
               (apply_regex_patterns source)).
  assert (Hv : Forall (offsets_valid source) es).
  { apply Forall_forall. intros e He. apply filter_In in He.
    apply apply_regex_patterns_valid. exact (proj1 He). }
  assert (Hs : StronglySorted before es)
    by apply entities_of_type_ordered.
  unfold create_redacted_text.
  rewrite (sorted_by_start_desc_ascending source es Hv Hs).
  rewrite <- (slice_to_full source) at 1.
  rewrite <- (app_nil_r (slice_to source (len source))).
  rewrite (fold_splice_desc source).
  - now rewrite rev_involutive, app_nil_r.
  - unfold len. lia.
  - apply Forall_rev. eapply Forall_impl; [|exact Hv].
    unfold offsets_valid. intros a Ha. lia.
  - replace (fun a b : PIIEntity => before b a)
      with (fun a b : PIIEntity => (fun x y => before x y) b a)
      by reflexivity.
    apply StronglySorted_rev. exact Hs.
Qed.
